(** * Corner smoothing: a shallow embedding of the squircle renderer

    The development follows the four JavaScript sources of the repository:

    - [corner-smoothing-vanilla.esm.js], which holds two builds of the
      renderer: the first one (module [Esm]) and the one whose header reads
      "fixed + robust" (module [EsmFixed]);
    - [init.iife.js] (module [Init]) and its sibling build (module
      [InitRobust]), the attribute-driven initialisers.

    JavaScript numbers are IEEE-754 binary64 values, so they are modelled by
    Rocq's primitive [float]; strings are [string]; every [WeakMap] keyed by
    an element is a [gmap] keyed by the element's handle. *)

From Stdlib Require Import ZArith Floats Lia Bool Ascii String.
From stdpp Require Import base list gmap strings pretty.

Set Warnings "-inexact-float".

(** ** ECMAScript built-ins used by the sources *)

Module JS.

(** *** Numbers *)

(** [ToBoolean] on a Number: NaN, +0 and -0 are falsy. *)
Definition truthy (x : float) : bool := negb (is_nan x || is_zero x).

(** [x || d] on Numbers. *)
Definition or_else (x d : float) : float := if truthy x then x else d.

Definition is_neg_zero (x : float) : bool := is_zero x && get_sign x.
Definition is_pos_zero (x : float) : bool := is_zero x && negb (get_sign x).

(** One iteration of the loop of [Math.min] (ECMA-262, 21.3.2.25). *)
Definition min_step (lowest number : float) : float :=
  if is_neg_zero number && is_pos_zero lowest then neg_zero
  else if (number <? lowest)%float then number
  else lowest.

Definition Math_min (coerced : list float) : float :=
  if existsb is_nan coerced then nan
  else fold_left min_step coerced infinity.

(** One iteration of the loop of [Math.max] (ECMA-262, 21.3.2.24). *)
Definition max_step (highest number : float) : float :=
  if is_pos_zero number && is_neg_zero highest then PrimFloat.zero
  else if (highest <? number)%float then number
  else highest.

Definition Math_max (coerced : list float) : float :=
  if existsb is_nan coerced then nan
  else fold_left max_step coerced neg_infinity.

(** The Number nearest to [m * 10^e10] (round to nearest, ties to even),
    for a positive decimal significand [m]. *)
Definition decimal_to_float (m : positive) (e10 : Z) : float :=
  let '(num, den) :=
    match e10 with
    | Zneg p => (m, Pos.pow 10 p)
    | Z0 => (m, 1%positive)
    | Zpos p => ((m * Pos.pow 10 p)%positive, 1%positive)
    end in
  SF2Prim (SFdiv prec emax (S754_finite false num 0) (S754_finite false den 0)).

(** *** [Number::toString] in radix 10 (ECMA-262, 6.1.6.1.20) *)

(** [x = xn / xd]; is [x < 10^n]? *)
Definition lt_pow10 (xn xd n : Z) : bool :=
  if (0 <=? n)%Z then (xn <? xd * 10 ^ n)%Z else (xn * 10 ^ (- n) <? xd)%Z.

Fixpoint find_n (fuel : nat) (n xn xd : Z) : Z :=
  match fuel with
  | O => n
  | S fuel' => if lt_pow10 xn xd n then n else find_n fuel' (n + 1)%Z xn xd
  end.

(** A decimal exponent [n0] with [10^(n0-1) <= xn / xd], at most three below
    the least [n] with [xn / xd < 10^n]: the binary exponent scaled by
    [log10 2]. *)
Definition estimate_n (xn xd : Z) : Z :=
  ((Z.log2 xn - Z.log2 xd - 1) * 30103 / 100000 - 1)%Z.

(** The shortest digit string [s] (with [k] digits) and exponent [n] such
    that [s * 10^(n-k)] reads back as [x]; among the candidates with [k]
    digits the one closest to [x] is taken. *)
Fixpoint shortest (fuel : nat) (k : Z) (x : float) (xn xd n : Z) : Z * Z * Z :=
  let '(qn, qd) :=
    if (0 <=? k - n)%Z then (xn * 10 ^ (k - n), xd)%Z
    else (xn, xd * 10 ^ (n - k))%Z in
  let lo := (qn / qd)%Z in
  let rem := (qn mod qd)%Z in
  let hi := (lo + 1)%Z in
  let '(his, hin) := if (hi =? 10 ^ k)%Z then (10 ^ (k - 1), n + 1)%Z else (hi, n) in
  let reads (s t : Z) : bool :=
    match s with
    | Zpos p => PrimFloat.Leibniz.eqb (decimal_to_float p t) x
    | _ => false
    end in
  let lo_ok := reads lo (n - k)%Z in
  let hi_ok := reads his (hin - k)%Z in
  match fuel with
  | O => (lo, n, k)
  | S fuel' =>
      if (rem =? 0)%Z then (lo, n, k)
      else if lo_ok && hi_ok then
        match (2 * rem ?= qd)%Z with
        | Lt => (lo, n, k)
        | Gt => (his, hin, k)
        | Eq => if Z.even lo then (lo, n, k) else (his, hin, k)
        end
      else if lo_ok then (lo, n, k)
      else if hi_ok then (his, hin, k)
      else shortest fuel' (k + 1)%Z x xn xd n
  end.

Fixpoint replicate_string (n : nat) (c : string) : string :=
  match n with
  | O => ""
  | S n' => c +:+ replicate_string n' c
  end.

Definition digits_of (s : Z) : string := pretty (Z.to_N s).

Definition take_string (n : nat) (s : string) : string :=
  String.substring 0 n s.
Definition drop_string (n : nat) (s : string) : string :=
  String.substring n (String.length s - n) s.

Definition format_decimal (s n k : Z) : string :=
  let ds := digits_of s in
  let exp_part :=
    (if (0 <=? n - 1)%Z then "e+" else "e-") +:+ digits_of (Z.abs (n - 1)) in
  if ((k <=? n) && (n <=? 21))%Z then
    ds +:+ replicate_string (Z.to_nat (n - k)) "0"
  else if ((0 <? n) && (n <=? 21))%Z then
    take_string (Z.to_nat n) ds +:+ "." +:+ drop_string (Z.to_nat n) ds
  else if ((-6 <? n) && (n <=? 0))%Z then
    "0." +:+ replicate_string (Z.to_nat (- n)) "0" +:+ ds
  else if (k =? 1)%Z then
    ds +:+ exp_part
  else
    take_string 1 ds +:+ "." +:+ drop_string 1 ds +:+ exp_part.

Definition Number_toString (x : float) : string :=
  match Prim2SF x with
  | S754_nan => "NaN"
  | S754_zero _ => "0"
  | S754_infinity s => if s then "-Infinity" else "Infinity"
  | S754_finite sg m e =>
      let '(xn, xd) :=
        match e with
        | Zneg p => (Zpos m, Zpos (Pos.pow 2 p))
        | _ => (Zpos m * 2 ^ e, 1)%Z
        end in
      let n := find_n 8 (estimate_n xn xd) xn xd in
      let '(s, n', k) := shortest 17 1%Z (abs x) xn xd n in
      (if sg then "-" else "") +:+ format_decimal s n' k
  end.

(** *** Strings

    A string is a sequence of code units; the model keeps the code units
    below 256. *)

(** The carriage-control and space characters that [trim] removes. *)
Definition is_white (c : ascii) : bool :=
  let n := nat_of_ascii c in
  ((9 <=? n)%nat && (n <=? 13)%nat) || (n =? 32)%nat || (n =? 160)%nat.

Fixpoint trim_start (s : string) : string :=
  match s with
  | String c s' => if is_white c then trim_start s' else s
  | EmptyString => EmptyString
  end.

Definition trim_end (s : string) : string :=
  String.rev (trim_start (String.rev s)).

Definition trim (s : string) : string := trim_end (trim_start s).

(** [s.split(sep)] for a one-character separator. *)
Fixpoint split (sep : ascii) (s : string) : list string :=
  match s with
  | EmptyString => [EmptyString]
  | String c s' =>
      if Ascii.eqb c sep then EmptyString :: split sep s'
      else match split sep s' with
           | h :: t => String c h :: t
           | [] => [String c EmptyString]
           end
  end.

(** [s.startsWith(p)]. *)
Definition startsWith (s p : string) : bool := String.prefix p s.

Definition is_digit (c : ascii) : bool :=
  let n := nat_of_ascii c in (48 <=? n)%nat && (n <=? 57)%nat.

Fixpoint span_digits (s : string) : list ascii * string :=
  match s with
  | String c s' =>
      if is_digit c then let '(ds, r) := span_digits s' in (c :: ds, r)
      else ([], s)
  | EmptyString => ([], EmptyString)
  end.

Definition digits_value (ds : list ascii) : N :=
  fold_left (fun acc c => (acc * 10 + (N_of_ascii c - 48))%N) ds 0%N.

Definition read_sign (s : string) : bool * string :=
  match s with
  | String "-" s' => (true, s')
  | String "+" s' => (false, s')
  | _ => (false, s)
  end.

(** The value of an [ExponentPart] at the head of [s], 0 when there is
    none. *)
Definition read_exponent (s : string) : Z :=
  match s with
  | String c r =>
      if Ascii.eqb c "e" || Ascii.eqb c "E" then
        let '(eneg, r1) := read_sign r in
        match span_digits r1 with
        | ([], _) => 0%Z
        | (eds, _) =>
            let v := Z.of_N (digits_value eds) in
            if eneg then (- v)%Z else v
        end
      else 0%Z
  | EmptyString => 0%Z
  end.

(** [parseFloat] (ECMA-262, 19.2.4): leading white space is skipped, the
    longest prefix that is a [StrDecimalLiteral] is read, and NaN is
    returned when there is none. *)
Definition parseFloat (input : string) : float :=
  let t := trim_start input in
  let '(neg, t1) := read_sign t in
  let signed (x : float) : float := if neg then (- x)%float else x in
  if String.prefix "Infinity" t1 then signed infinity
  else
    let '(ip, t2) := span_digits t1 in
    let '(fp, t3) :=
      match t2 with
      | String "." r => span_digits r
      | _ => ([], t2)
      end in
    match ip ++ fp with
    | [] => nan
    | ds =>
        match digits_value ds with
        | N0 => signed PrimFloat.zero
        | Npos m =>
            signed (decimal_to_float m (read_exponent t3 - Z.of_nat (length fp)))
        end
    end.

(** *** Regular expressions

    The fragment of ECMAScript patterns the sources use, with the
    backtracking semantics of the standard: alternatives are tried in
    order, quantifiers are greedy, and [match] returns the leftmost
    match. *)

Inductive regex :=
| Char (c : ascii)
| NoneOf (cs : list ascii)
| Cat (r1 r2 : regex)
| Opt (r : regex)
| Plus (r : regex)
| Group (n : nat) (r : regex).

Definition upper (c : ascii) : ascii :=
  let n := nat_of_ascii c in
  if (97 <=? n)%nat && (n <=? 122)%nat then ascii_of_nat (n - 32) else c.

Definition char_eq (ignoreCase : bool) (a b : ascii) : bool :=
  if ignoreCase then Ascii.eqb (upper a) (upper b) else Ascii.eqb a b.

Definition captures := gmap nat string.

(** The part of [s] consumed when the remaining input is [s']. *)
Definition consumed (s s' : string) : string :=
  take_string (String.length s - String.length s') s.

(** The greedy loop of [r+], given the matcher [m] of [r]: one more
    iteration is tried first, provided the last one consumed input, and the
    continuation is the fallback. *)
Fixpoint plus_loop
    (m : string -> captures -> (string -> captures -> option captures) -> option captures)
    (k : string -> captures -> option captures)
    (fuel : nat) (s : string) (caps : captures) : option captures :=
  match fuel with
  | O => None
  | S fuel' =>
      m s caps (fun s' caps' =>
        let again :=
          if (String.length s' <? String.length s)%nat
          then plus_loop m k fuel' s' caps' else None in
        match again with
        | Some c => Some c
        | None => k s' caps'
        end)
  end.

Fixpoint rmatch (ignoreCase : bool) (r : regex) (s : string) (caps : captures)
    (k : string -> captures -> option captures) {struct r} : option captures :=
  match r with
  | Char c =>
      match s with
      | String x s' => if char_eq ignoreCase c x then k s' caps else None
      | EmptyString => None
      end
  | NoneOf cs =>
      match s with
      | String x s' =>
          if existsb (char_eq ignoreCase x) cs then None else k s' caps
      | EmptyString => None
      end
  | Cat r1 r2 =>
      rmatch ignoreCase r1 s caps (fun s' caps' => rmatch ignoreCase r2 s' caps' k)
  | Opt r1 =>
      match rmatch ignoreCase r1 s caps k with
      | Some c => Some c
      | None => k s caps
      end
  | Plus r1 => plus_loop (rmatch ignoreCase r1) k (S (String.length s)) s caps
  | Group n r1 =>
      rmatch ignoreCase r1 s caps (fun s' caps' => k s' (<[n := consumed s s']> caps'))
  end.

(** [s.match(r)] for a pattern without the [g] flag: the captures of the
    leftmost match ([None] is JavaScript's [null]). *)
Fixpoint String_match (ignoreCase : bool) (r : regex) (s : string) : option captures :=
  match rmatch ignoreCase r s ∅ (fun _ caps => Some caps) with
  | Some c => Some c
  | None =>
      match s with
      | String _ s' => String_match ignoreCase r s'
      | EmptyString => None
      end
  end.

Definition cat_all (rs : list regex) (last : regex) : regex :=
  foldr Cat last rs.

(** The backslash character. *)
Definition backslash : ascii := "092"%char.

(** [s.includes(c)] for a single character. *)
Fixpoint includes (c : ascii) (s : string) : bool :=
  match s with
  | EmptyString => false
  | String x s' => Ascii.eqb x c || includes c s'
  end.

End JS.

(** ** The path generator: [getSvgPath] *)

Module Path.
Import JS.

(** The argument object of [getSvgPath]; [preserveSmoothing] may be left
    out ([None]), in which case the destructuring default [true] applies. *)
Record options := {
  width : float;
  height : float;
  cornerRadius : float;
  cornerSmoothing : float;
  preserveSmoothing : option bool
}.

(** The cubic circle constant written in the source. *)
Definition K : float := 0.552284749831%float.

Definition nl : string := String "010"%char EmptyString.

(** The white space that starts the continuation lines of the template
    literal: ten blanks in [corner-smoothing-vanilla.esm.js], twelve in the
    two initialisers. *)
Definition indent10 : string := "          ".
Definition indent12 : string := "            ".

(** [`${x}`] for a Number. *)
Definition num (x : float) : string := Number_toString x.

(** A template literal is the concatenation of its pieces. *)
Definition join (pieces : list string) : string := foldr String.append "" pieces.

(** The template literal of [getSvgPath], as a function of the values it
    interpolates. *)
Definition outline_text (indent : string) (width height r cp : float) : string :=
  join [
    "M "; num r; ",0 "; nl; indent;
    "L "; num (width - r); ",0 "; nl; indent;
    "C "; num (width - cp); ",0 "; num width; ","; num cp; " "; num width; ","; num r; nl; indent;
    "L "; num width; ","; num (height - r); " "; nl; indent;
    "C "; num width; ","; num (height - cp); " "; num (width - cp); ","; num height; " ";
          num (width - r); ","; num height; nl; indent;
    "L "; num r; ","; num height; " "; nl; indent;
    "C "; num cp; ","; num height; " 0,"; num (height - cp); " 0,"; num (height - r); nl; indent;
    "L 0,"; num r; " "; nl; indent;
    "C 0,"; num cp; " "; num cp; ",0 "; num r; ",0 Z" ].

Definition getSvgPath (indent : string) (o : options) : string :=
  let width := width o in
  let height := height o in
  let cornerRadius := cornerRadius o in
  let cornerSmoothing := cornerSmoothing o in
  let preserveSmoothing := default true (preserveSmoothing o) in
  let r := Math_min [cornerRadius; width / 2; height / 2]%float in
  let smoothing := cornerSmoothing in
  let cp := (r * (1 - smoothing * K))%float in
  let cpSmooth := (r * smoothing * K)%float in
  outline_text indent width height r cp.

(** The two local constants of [getSvgPath] that reach the output. *)
Definition effectiveRadius (o : options) : float :=
  Math_min [cornerRadius o; width o / 2; height o / 2]%float.

Definition controlOffset (o : options) : float :=
  (effectiveRadius o * (1 - cornerSmoothing o * K))%float.

(** *** The outline as geometry

    The path data read back as drawing commands: what an SVG path parser
    sees in the string that [getSvgPath] returns. *)

Inductive command :=
| MoveTo (x y : float)
| LineTo (x y : float)
| CurveTo (x1 y1 x2 y2 x y : float)
| ClosePath.

Definition outline (o : options) : list command :=
  let w := width o in
  let h := height o in
  let r := effectiveRadius o in
  let cp := controlOffset o in
  [ MoveTo r 0;
    LineTo (w - r) 0;
    CurveTo (w - cp) 0 w cp w r;
    LineTo w (h - r);
    CurveTo w (h - cp) (w - cp) h (w - r) h;
    LineTo r h;
    CurveTo cp h 0 (h - cp) 0 (h - r);
    LineTo 0 r;
    CurveTo 0 cp cp 0 r 0;
    ClosePath ]%float.

(** The path data of one command, with the blank that the template puts
    after a move or a line. *)
Definition command_text (c : command) : string :=
  match c with
  | MoveTo x y => "M " +:+ num x +:+ "," +:+ num y +:+ " "
  | LineTo x y => "L " +:+ num x +:+ "," +:+ num y +:+ " "
  | CurveTo x1 y1 x2 y2 x y =>
      "C " +:+ num x1 +:+ "," +:+ num y1 +:+ " " +:+ num x2 +:+ "," +:+ num y2
           +:+ " " +:+ num x +:+ "," +:+ num y
  | ClosePath => " Z"
  end.

(** Commands are separated by a line break and the indentation, except
    the closing [Z], which follows the last curve on its line. *)
Fixpoint serialize (indent : string) (cs : list command) : string :=
  match cs with
  | [] => ""
  | [c] => command_text c
  | c :: ((ClosePath :: _) as rest) => command_text c +:+ serialize indent rest
  | c :: rest => command_text c +:+ nl +:+ indent +:+ serialize indent rest
  end.

(** One corner of the outline: the end points of its cubic curve and the
    two control points. *)
Record corner := {
  arc_start : float * float;
  control1 : float * float;
  control2 : float * float;
  arc_end : float * float
}.

(** The corners of a command list: every curve with the point reached by
    the command before it. *)
Fixpoint corners_from (cur : float * float) (cs : list command) : list corner :=
  match cs with
  | [] => []
  | MoveTo x y :: rest => corners_from (x, y) rest
  | LineTo x y :: rest => corners_from (x, y) rest
  | CurveTo x1 y1 x2 y2 x y :: rest =>
      {| arc_start := cur; control1 := (x1, y1); control2 := (x2, y2); arc_end := (x, y) |}
        :: corners_from (x, y) rest
  | ClosePath :: rest => corners_from cur rest
  end.

Definition corners (o : options) : list corner := corners_from (0, 0)%float (outline o).

End Path.

(** ** The styling surface: elements, style sheets and the console *)

Module Dom.

(** The measured box of an element: [getBoundingClientRect()] and the
    [clientWidth]/[clientHeight] pair. *)
Record Box := {
  rect_width : float;
  rect_height : float;
  clientWidth : float;
  clientHeight : float
}.

(** The inline style of an element ([element.style]). *)
Record InlineStyle := {
  clipPath : string;
  position : string;
  background : string;
  properties : gmap string string
}.

(** What [getComputedStyle] reports from the style sheets of the page,
    inline style left aside. *)
Record ComputedStyle := {
  sheet_position : string;
  borderTopWidth : string;
  borderTopColor : string;
  borderTopStyle : string;
  backgroundColor : string;
  backgroundImage : string;
  backgroundShorthand : string;
  borderTopLeftRadius : string
}.

Record Element := {
  box : Box;
  classList : list string;
  style : InlineStyle;
  computed : ComputedStyle;
  attributes : gmap string string
}.

Definition set_classList (f : list string -> list string) (el : Element) : Element :=
  {| box := box el; classList := f (classList el); style := style el;
     computed := computed el; attributes := attributes el |}.

Definition set_style (f : InlineStyle -> InlineStyle) (el : Element) : Element :=
  {| box := box el; classList := classList el; style := f (style el);
     computed := computed el; attributes := attributes el |}.

Definition set_box (b : Box) (el : Element) : Element :=
  {| box := b; classList := classList el; style := style el;
     computed := computed el; attributes := attributes el |}.

Definition with_clipPath (v : string) (st : InlineStyle) : InlineStyle :=
  {| clipPath := v; position := position st; background := background st;
     properties := properties st |}.

Definition with_position (v : string) (st : InlineStyle) : InlineStyle :=
  {| clipPath := clipPath st; position := v; background := background st;
     properties := properties st |}.

Definition with_background (v : string) (st : InlineStyle) : InlineStyle :=
  {| clipPath := clipPath st; position := position st; background := v;
     properties := properties st |}.

Definition with_properties (f : gmap string string -> gmap string string)
    (st : InlineStyle) : InlineStyle :=
  {| clipPath := clipPath st; position := position st; background := background st;
     properties := f (properties st) |}.

(** [classList.add(c)] and [classList.remove(c)]: the list is a set of
    tokens in insertion order. *)
Definition classList_add (c : string) (l : list string) : list string :=
  if bool_decide (c ∈ l) then l else l ++ [c].

Definition classList_remove (c : string) (l : list string) : list string :=
  filter (λ x, x ≠ c) l.

(** [getComputedStyle(element).position]: the inline value wins over the
    style sheets. *)
Definition computed_position (el : Element) : string :=
  if bool_decide (position (style el) = "") then sheet_position (computed el)
  else position (style el).

(** A [<style>] element. *)
Record StyleElement := {
  id : string;
  textContent : string
}.

(** The document: its elements and [<style>] objects by handle, the
    [<style>] children of [document.head] in document order, the answer of
    [CSS.supports('clip-path', 'path("")')] and what was written with
    [console.warn]. *)
Record Doc := {
  elems : gmap nat Element;
  styleObjects : gmap nat StyleElement;
  head : list nat;
  supports_path : bool;
  console : list string
}.

Definition set_elements (f : gmap nat Element -> gmap nat Element) (d : Doc) : Doc :=
  {| elems := f (elems d); styleObjects := styleObjects d; head := head d;
     supports_path := supports_path d; console := console d |}.

Definition set_styleObjects (f : gmap nat StyleElement -> gmap nat StyleElement)
    (d : Doc) : Doc :=
  {| elems := elems d; styleObjects := f (styleObjects d); head := head d;
     supports_path := supports_path d; console := console d |}.

Definition set_head (f : list nat -> list nat) (d : Doc) : Doc :=
  {| elems := elems d; styleObjects := styleObjects d; head := f (head d);
     supports_path := supports_path d; console := console d |}.

Definition console_warn (msg : string) (d : Doc) : Doc :=
  {| elems := elems d; styleObjects := styleObjects d; head := head d;
     supports_path := supports_path d; console := console d ++ [msg] |}.

Definition update_element (e : nat) (f : Element -> Element) (d : Doc) : Doc :=
  set_elements (alter f e) d.

(** The attached [<style>] elements, in document order. *)
Definition head_styles (d : Doc) : list StyleElement :=
  omap (λ h, styleObjects d !! h) (head d).

(** The object of handle [h] exists and carries the id [i]. *)
Definition has_id (d : Doc) (i : string) (h : nat) : Prop :=
  id <$> styleObjects d !! h = Some i.

#[global] Instance has_id_dec d i h : Decision (has_id d i h).
Proof. unfold has_id. apply _. Defined.

(** [document.getElementById(i)]: the first attached element with that
    id. *)
Definition getElementById (i : string) (d : Doc) : option nat :=
  snd <$> list_find (has_id d i) (head d).

(** [document.createElement('style')]: a fresh, detached object. *)
Definition createStyle (d : Doc) : nat * Doc :=
  let h := fresh (dom (styleObjects d)) in
  (h, set_styleObjects <[h := {| id := ""; textContent := "" |}]> d).

Definition set_id (h : nat) (i : string) (d : Doc) : Doc :=
  set_styleObjects (alter (λ s, {| id := i; textContent := textContent s |}) h) d.

Definition set_textContent (h : nat) (t : string) (d : Doc) : Doc :=
  set_styleObjects (alter (λ s, {| id := id s; textContent := t |}) h) d.

(** [document.head.appendChild(node)]: the node moves to the end. *)
Definition appendChild (h : nat) (d : Doc) : Doc :=
  set_head (λ l, filter (λ x, x ≠ h) l ++ [h]) d.

(** [node.remove()]. *)
Definition remove (h : nat) (d : Doc) : Doc :=
  set_head (filter (λ x, x ≠ h)) d.

Definition dq : string := String (ascii_of_nat 34) EmptyString.

(** [`path("${p}")`]. *)
Definition path_value (p : string) : string := "path(" +:+ dq +:+ p +:+ dq +:+ ")".

End Dom.

(** ** The first build of the renderer

    [renderSquircle] and [squircleObserver] as they stand in the first build
    of [corner-smoothing-vanilla.esm.js] and, copied word for word, in the
    two initialisers.  The copies differ in the indentation of their template
    literals, in the wording of the warning and in how clip-path support is
    asked; those are the fields of [Build]. *)

Module Render.
Import JS Dom.

(** The [options] object of [renderSquircle]; a missing property is
    [None]. *)
Record RenderOptions := {
  cornerRadius : float;
  cornerSmoothing : option float;
  preserveSmoothing : option bool;
  borderWidth : option float
}.

Record Build := {
  path_indent : string;
  css_base : string;
  warning : string
}.

(** Module state: the document and the global counter for class names. *)
Record State := {
  doc : Doc;
  squircleCounter : nat
}.

Definition nl : string := Path.nl.
Definition num : float -> string := Path.num.

(** [`squircle-${n}`] for the counter value [n]. *)
Definition class_name (n : nat) : string := "squircle-" +:+ pretty n.

Definition style_id (className : string) : string := "squircle-style-" +:+ className.

(** The text assigned to [styleElement.textContent]. *)
Definition border_css (b : Build) (className : string)
    (innerOffsetX innerOffsetY innerWidth innerHeight : float) (innerPath : string) : string :=
  let base := css_base b in
  Path.join [
    nl; base; "  ."; className; "::before {"; nl;
    base; "    content: '';"; nl;
    base; "    position: absolute;"; nl;
    base; "    top: "; num innerOffsetY; "px;"; nl;
    base; "    left: "; num innerOffsetX; "px;"; nl;
    base; "    width: "; num innerWidth; "px;"; nl;
    base; "    height: "; num innerHeight; "px;"; nl;
    base; "    clip-path: path("; dq; innerPath; dq; ");"; nl;
    base; "    background: var(--squircle-inner-bg, inherit);"; nl;
    base; "    pointer-events: none;"; nl;
    base; "  }"; nl;
    base ].

(** The argument object handed to [getSvgPath]; a missing smoothing is
    [undefined], which arithmetic turns into NaN. *)
Definition path_options (width height radius : float) (options : RenderOptions) : Path.options :=
  {| Path.width := width; Path.height := height; Path.cornerRadius := radius;
     Path.cornerSmoothing := default nan (cornerSmoothing options);
     Path.preserveSmoothing := Some (default true (preserveSmoothing options)) |}.

(** [borderWidth && borderWidth > 0]. *)
Definition border_mode (options : RenderOptions) : bool :=
  match borderWidth options with
  | Some bw => truthy bw && (0 <? bw)%float
  | None => false
  end.

Definition innerWidth (width borderWidth : float) : float :=
  Math_max [0; width - borderWidth * 2]%float.
Definition innerHeight (height borderWidth : float) : float :=
  Math_max [0; height - borderWidth * 2]%float.
Definition innerRadius (cornerRadius borderWidth : float) : float :=
  Math_max [0; cornerRadius - borderWidth]%float.

Definition is_static (d : Doc) (element : nat) : bool :=
  match elems d !! element with
  | Some el => bool_decide (computed_position el = "static")
  | None => false
  end.

Definition renderSquircle (b : Build) (supported : bool) (s : State)
    (element : nat) (options : RenderOptions) : State :=
  match elems (doc s) !! element with
  | None => s
  | Some el =>
      if negb supported then
        {| doc := console_warn (warning b) (doc s); squircleCounter := squircleCounter s |}
      else
        let width := rect_width (box el) in
        let height := rect_height (box el) in
        if (width <=? 0)%float || (height <=? 0)%float then s
        else
          let svgPath :=
            Path.getSvgPath (path_indent b)
              (path_options width height (cornerRadius options) options) in
          if border_mode options then
            let borderWidth := default nan (borderWidth options) in
            let counter := S (squircleCounter s) in
            let className := class_name counter in
            let d1 := update_element element (set_classList (classList_add className)) (doc s) in
            let outerPath :=
              Path.getSvgPath (path_indent b)
                (path_options width height (cornerRadius options) options) in
            let innerWidth := innerWidth width borderWidth in
            let innerHeight := innerHeight height borderWidth in
            let innerRadius := innerRadius (cornerRadius options) borderWidth in
            let innerPath :=
              Path.getSvgPath (path_indent b)
                (path_options innerWidth innerHeight innerRadius options) in
            let d2 := update_element element (set_style (with_clipPath (path_value outerPath))) d1 in
            let '(styleElement, d3) :=
              match getElementById (style_id className) d2 with
              | Some h => (h, d2)
              | None =>
                  let '(h, d) := createStyle d2 in
                  (h, appendChild h (set_id h (style_id className) d))
              end in
            let innerOffsetX := borderWidth in
            let innerOffsetY := borderWidth in
            let d4 :=
              set_textContent styleElement
                (border_css b className innerOffsetX innerOffsetY innerWidth innerHeight innerPath)
                d3 in
            let d5 :=
              if is_static d4 element
              then update_element element (set_style (with_position "relative")) d4
              else d4 in
            {| doc := d5; squircleCounter := counter |}
          else
            {| doc := update_element element (set_style (with_clipPath (path_value svgPath))) (doc s);
               squircleCounter := squircleCounter s |}
  end.

End Render.

(** [corner-smoothing-vanilla.esm.js], first build. *)

Module Esm.
Import Dom Render.

Definition build : Build :=
  {| path_indent := Path.indent10;
     css_base := "    ";
     warning := "clip-path with path() not supported, falling back to border-radius" |}.

Definition getSvgPath : Path.options -> string := Path.getSvgPath Path.indent10.

(** [CSS.supports('clip-path', 'path("")')] is asked at every call. *)
Definition renderSquircle (s : State) (element : nat) (options : RenderOptions) : State :=
  Render.renderSquircle build (supports_path (doc s)) s element options.

End Esm.

(** ** The second build of the renderer ("fixed + robust") *)

Module EsmFixed.
Import JS Dom.

Definition RenderOptions := Render.RenderOptions.

(** Module state: the document, the constant [supportsClipPathPath]
    computed when the module is loaded, the three per-element caches and
    the counter. *)
Record State := {
  doc : Doc;
  supportsClipPathPath : bool;
  CLASS_MAP : gmap nat string;
  STYLE_MAP : gmap nat nat;
  SIZE_MAP : gmap nat (float * float);
  squircleCounter : nat
}.

Definition nl : string := Path.nl.
Definition num : float -> string := Path.num.

Definition getSvgPath : Path.options -> string := Path.getSvgPath Path.indent10.

Definition set_doc (f : Doc -> Doc) (s : State) : State :=
  {| doc := f (doc s); supportsClipPathPath := supportsClipPathPath s;
     CLASS_MAP := CLASS_MAP s; STYLE_MAP := STYLE_MAP s; SIZE_MAP := SIZE_MAP s;
     squircleCounter := squircleCounter s |}.

Definition set_CLASS_MAP (f : gmap nat string -> gmap nat string) (s : State) : State :=
  {| doc := doc s; supportsClipPathPath := supportsClipPathPath s;
     CLASS_MAP := f (CLASS_MAP s); STYLE_MAP := STYLE_MAP s; SIZE_MAP := SIZE_MAP s;
     squircleCounter := squircleCounter s |}.

Definition set_STYLE_MAP (f : gmap nat nat -> gmap nat nat) (s : State) : State :=
  {| doc := doc s; supportsClipPathPath := supportsClipPathPath s;
     CLASS_MAP := CLASS_MAP s; STYLE_MAP := f (STYLE_MAP s); SIZE_MAP := SIZE_MAP s;
     squircleCounter := squircleCounter s |}.

Definition set_SIZE_MAP (f : gmap nat (float * float) -> gmap nat (float * float))
    (s : State) : State :=
  {| doc := doc s; supportsClipPathPath := supportsClipPathPath s;
     CLASS_MAP := CLASS_MAP s; STYLE_MAP := STYLE_MAP s; SIZE_MAP := f (SIZE_MAP s);
     squircleCounter := squircleCounter s |}.

Definition set_squircleCounter (n : nat) (s : State) : State :=
  {| doc := doc s; supportsClipPathPath := supportsClipPathPath s;
     CLASS_MAP := CLASS_MAP s; STYLE_MAP := STYLE_MAP s; SIZE_MAP := SIZE_MAP s;
     squircleCounter := n |}.

(** The text assigned to [styleEl.textContent]. *)
Definition border_css (className : string) (innerPath : string)
    (innerWidth innerHeight borderWidth : float) : string :=
  Path.join [
    nl; "    ."; className; " { position: relative; }"; nl;
    "    ."; className; "::before {"; nl;
    "      content: '';"; nl;
    "      position: absolute;"; nl;
    "      inset: "; num borderWidth; "px;"; nl;
    "      width: "; num innerWidth; "px;"; nl;
    "      height: "; num innerHeight; "px;"; nl;
    "      clip-path: path("; dq; innerPath; dq; ");"; nl;
    "      background: var(--squircle-inner-bg, inherit);"; nl;
    "      pointer-events: none;"; nl;
    "      z-index: -1;"; nl;
    "    }"; nl;
    "  " ].

Definition upsertBorderStyle (s : State) (el : nat) (className innerPath : string)
    (innerWidth innerHeight borderWidth : float) : State :=
  let '(styleEl, s1) :=
    match STYLE_MAP s !! el with
    | Some h => (h, s)
    | None =>
        let '(h, d) := createStyle (doc s) in
        let s' := set_STYLE_MAP <[el := h]> (set_doc (λ _, d) s) in
        let s'' := set_doc (set_id h (Render.style_id className)) s' in
        (h, set_doc (appendChild h) s'')
    end in
  set_doc (set_textContent styleEl
             (border_css className innerPath innerWidth innerHeight borderWidth)) s1.

(** The argument object handed to [getSvgPath]; here [cornerSmoothing]
    defaults to 1. *)
Definition path_options (width height radius : float) (options : RenderOptions) : Path.options :=
  {| Path.width := width; Path.height := height; Path.cornerRadius := radius;
     Path.cornerSmoothing := default 1%float (Render.cornerSmoothing options);
     Path.preserveSmoothing := Some (default true (Render.preserveSmoothing options)) |}.

Definition warning : string :=
  "clip-path: path() unsupported. Falling back to border-radius.".

Definition renderSquircle (s : State) (element : nat) (options : RenderOptions) : State :=
  match elems (doc s) !! element with
  | None => s
  | Some el =>
      let cornerRadius := Render.cornerRadius options in
      let borderWidth := default 0%float (Render.borderWidth options) in
      if negb (supportsClipPathPath s) then set_doc (console_warn warning) s
      else
        let width := clientWidth (box el) in
        let height := clientHeight (box el) in
        if (width <=? 0)%float || (height <=? 0)%float then s
        else
          let s0 := set_SIZE_MAP <[element := (width, height)]> s in
          let outerPath := getSvgPath (path_options width height cornerRadius options) in
          if (0 <? borderWidth)%float then
            let '(className, s1) :=
              match CLASS_MAP s0 !! element with
              | Some c =>
                  if bool_decide (c = "") then
                    let n := S (squircleCounter s0) in
                    let c' := Render.class_name n in
                    (c', set_doc (update_element element (set_classList (classList_add c')))
                           (set_CLASS_MAP <[element := c']> (set_squircleCounter n s0)))
                  else (c, s0)
              | None =>
                  let n := S (squircleCounter s0) in
                  let c' := Render.class_name n in
                  (c', set_doc (update_element element (set_classList (classList_add c')))
                         (set_CLASS_MAP <[element := c']> (set_squircleCounter n s0)))
              end in
            let s2 :=
              set_doc (update_element element (set_style (with_clipPath (path_value outerPath)))) s1 in
            let innerWidth := Render.innerWidth width borderWidth in
            let innerHeight := Render.innerHeight height borderWidth in
            let innerRadius := Render.innerRadius cornerRadius borderWidth in
            let innerPath := getSvgPath (path_options innerWidth innerHeight innerRadius options) in
            let s3 :=
              if Render.is_static (doc s2) element
              then set_doc (update_element element (set_style (with_position "relative"))) s2
              else s2 in
            upsertBorderStyle s3 element className innerPath innerWidth innerHeight borderWidth
          else
            let s1 :=
              match CLASS_MAP s0 !! element with
              | Some className =>
                  if bool_decide (className = "") then s0
                  else
                    let s' := set_doc (update_element element
                                (set_classList (classList_remove className))) s0 in
                    let s'' :=
                      match STYLE_MAP s' !! element with
                      | Some styleEl => set_doc (remove styleEl) s'
                      | None => s'
                      end in
                    set_STYLE_MAP (delete element) (set_CLASS_MAP (delete element) s'')
              | None => s0
              end in
            set_doc (update_element element (set_style (with_clipPath (path_value outerPath)))) s1
  end.

End EsmFixed.

(** ** The initialisers: [init.iife.js] and its sibling build

    The two files share every function below word for word, except for the
    pattern inside [isTransparentColor] and for the renderer build they
    embed; the section takes both as parameters. *)

Module Initializer.
Import JS Dom.

Definition RenderOptions := Render.RenderOptions.

(** A [ResizeObserver] made by [squircleObserver]: the element and the
    options its callback closes over, and whether it still observes. *)
Record Observer := {
  target : nat;
  options : RenderOptions;
  observing : bool
}.

(** Module state: the renderer's state, the live [ResizeObserver]s by
    handle, and the [elementObservers] map from an element to its observer
    and options. *)
Record State := {
  rstate : Render.State;
  observers : gmap nat Observer;
  elementObservers : gmap nat (nat * RenderOptions)
}.

Definition doc (s : State) : Doc := Render.doc (rstate s).

Definition set_rstate (f : Render.State -> Render.State) (s : State) : State :=
  {| rstate := f (rstate s); observers := observers s;
     elementObservers := elementObservers s |}.

Definition set_doc (f : Doc -> Doc) (s : State) : State :=
  set_rstate (λ r, {| Render.doc := f (Render.doc r);
                      Render.squircleCounter := Render.squircleCounter r |}) s.

Definition set_observers (f : gmap nat Observer -> gmap nat Observer) (s : State) : State :=
  {| rstate := rstate s; observers := f (observers s);
     elementObservers := elementObservers s |}.

Definition set_elementObservers
    (f : gmap nat (nat * RenderOptions) -> gmap nat (nat * RenderOptions)) (s : State) : State :=
  {| rstate := rstate s; observers := observers s;
     elementObservers := f (elementObservers s) |}.

Section Build.

(** The renderer build embedded in the file and its clip-path support
    test. *)
Variable build : Render.Build.
Variable supported : Doc -> bool.

(** The pattern of [isTransparentColor] and its [i] flag. *)
Variable rgba_pattern : regex.
Variable ignoreCase : bool.

Definition renderSquircle (s : State) (element : nat) (o : RenderOptions) : State :=
  set_rstate (λ r, Render.renderSquircle build (supported (Render.doc r)) r element o) s.

(** [squircleObserver]: one render, then a new observer on the
    element; the observer's handle is returned. *)
Definition squircleObserver (s : State) (element : nat) (o : RenderOptions) : nat * State :=
  let s1 := renderSquircle s element o in
  let observer := fresh (dom (observers s1)) in
  (observer,
   set_observers <[observer := {| target := element; options := o; observing := true |}]> s1).

(** The callback of an observer, run by the platform with one entry
    whose target is [entry_target]. *)
Definition resize_callback (s : State) (observer : nat) (entry_target : nat) : State :=
  match observers s !! observer with
  | Some ob =>
      if observing ob && bool_decide (entry_target = target ob)
      then renderSquircle s (target ob) (options ob)
      else s
  | None => s
  end.

Definition isTransparentColor (color : string) : bool :=
  if bool_decide (color = "") || bool_decide (color = "transparent")
     || bool_decide (color = "rgba(0, 0, 0, 0)") then true
  else
    match String_match ignoreCase rgba_pattern color with
    | Some rgbaMatch =>
        let values := map trim (split "," (default "" (rgbaMatch !! 1))) in
        if bool_decide (length values = 4)
           && (parseFloat (default "" (values !! 3%nat)) =? 0)%float
        then true
        else false
    | None => false
    end.

Record BorderInfo := {
  border_width : float;
  border_color : string;
  hasSolidBorder : bool
}.

Definition getBorderInfo (el : Element) : BorderInfo :=
  let computed := computed el in
  let borderWidth := or_else (parseFloat (borderTopWidth computed)) 0 in
  let borderColor := borderTopColor computed in
  let borderStyle := borderTopStyle computed in
  let hasSolidBorder :=
    (0 <? borderWidth)%float
    && negb (bool_decide (borderStyle = "none"))
    && negb (isTransparentColor borderColor) in
  {| border_width := if hasSolidBorder then borderWidth else 0;
     border_color := borderColor;
     hasSolidBorder := hasSolidBorder |}.

Record BackgroundInfo := {
  inner : string;
  hasGradient : bool;
  hasSolidBackground : bool
}.

Definition getBackgroundInfo (el : Element) : BackgroundInfo :=
  let computed := computed el in
  let backgroundColor := backgroundColor computed in
  let backgroundImage := backgroundImage computed in
  let hasGradient :=
    negb (bool_decide (backgroundImage = ""))
    && negb (bool_decide (backgroundImage = "none")) in
  let hasSolidBackground := negb (isTransparentColor backgroundColor) in
  let innerBackground :=
    if hasGradient then backgroundShorthand computed
    else if hasSolidBackground then backgroundColor
    else "" in
  {| inner := innerBackground;
     hasGradient := hasGradient;
     hasSolidBackground := hasSolidBackground |}.

(** [Math.max(0, Math.min(1, parseFloat(cornerSmoothingAttr) || 1))]. *)
Definition deriveCornerSmoothing (cornerSmoothingAttr : string) : float :=
  Math_max [0%float; Math_min [1%float; or_else (parseFloat cornerSmoothingAttr) 1]].

(** The [cornerRadius] of [initializeElement]: [null] and the empty
    string are the falsy values of the attribute. *)
Definition deriveCornerRadius (cornerRadiusAttr : option string) (el : Element) : float :=
  match cornerRadiusAttr with
  | Some a =>
      if bool_decide (a = "")
      then or_else (parseFloat (borderTopLeftRadius (computed el))) 16
      else or_else (parseFloat a) 16
  | None => or_else (parseFloat (borderTopLeftRadius (computed el))) 16
  end.

Definition initializeElement (s : State) (element : nat) : State :=
  match elems (doc s) !! element with
  | None => s
  | Some el =>
      if bool_decide (is_Some (elementObservers s !! element)) then s
      else
        let cornerSmoothingAttr := attributes el !! "data-corner-smoothing" in
        let cornerRadiusAttr := attributes el !! "data-corner-radius" in
        match cornerSmoothingAttr with
        | None => s
        | Some attr =>
            if bool_decide (attr = "") then s
            else
              let cornerSmoothing := deriveCornerSmoothing attr in
              let cornerRadius := deriveCornerRadius cornerRadiusAttr el in
              let borderInfo := getBorderInfo el in
              let backgroundInfo := getBackgroundInfo el in
              let options0 :=
                {| Render.cornerRadius := cornerRadius;
                   Render.cornerSmoothing := Some cornerSmoothing;
                   Render.preserveSmoothing := Some true;
                   Render.borderWidth := None |} in
              let '(options, s1) :=
                if hasSolidBorder borderInfo then
                  let o :=
                    {| Render.cornerRadius := cornerRadius;
                       Render.cornerSmoothing := Some cornerSmoothing;
                       Render.preserveSmoothing := Some true;
                       Render.borderWidth := Some (border_width borderInfo) |} in
                  let s' :=
                    set_doc (update_element element
                               (set_style (with_background (border_color borderInfo)))) s in
                  let s'' :=
                    if bool_decide (inner backgroundInfo = "") then s'
                    else set_doc (update_element element
                           (set_style (with_properties
                              <["--squircle-inner-bg" := inner backgroundInfo]>))) s' in
                  (o, s'')
                else (options0, s) in
              let '(observer, s2) := squircleObserver s1 element options in
              set_elementObservers <[element := (observer, options)]> s2
        end
  end.

(** [root.querySelectorAll('[data-corner-smoothing]')] on the document. *)
Definition querySelectorAll (d : Doc) : list nat :=
  filter (λ e, bool_decide (is_Some (elems d !! e ≫= λ el,
                                     attributes el !! "data-corner-smoothing")))
         (map_to_list (elems d)).*1.

Definition scan (s : State) : State :=
  foldl initializeElement s (querySelectorAll (doc s)).

(** The body of the [forEach] of [disconnect], for one class name. *)
Definition disconnect_class (element : nat) (d : Doc) (className : string) : Doc :=
  if startsWith className "squircle-" then
    let d1 := update_element element (set_classList (classList_remove className)) d in
    match getElementById ("squircle-style-" +:+ className) d1 with
    | Some styleElement => remove styleElement d1
    | None => d1
    end
  else d.

Definition disconnect (s : State) (element : nat) : State :=
  match elems (doc s) !! element with
  | None => s
  | Some el =>
      match elementObservers s !! element with
      | Some data =>
          let s1 := set_observers
                      (alter (λ ob, {| target := target ob; options := options ob;
                                       observing := false |}) data.1) s in
          let s2 := set_elementObservers (delete element) s1 in
          let s3 := set_doc (update_element element (set_style (with_clipPath ""))) s2 in
          let s4 := set_doc (update_element element
                      (set_style (with_properties (delete "--squircle-inner-bg")))) s3 in
          let classes := classList el in
          set_doc (λ d, foldl (disconnect_class element) d classes) s4
      | None => s
      end
  end.

End Build.

End Initializer.

(** [init.iife.js].  Its pattern is written [/rgba?\\(([^)]+)\\)/]: after
    [rgb] and an optional [a], an escaped backslash, then a group holding a
    second group [([^)]+)] and another escaped backslash. *)

Module Init.
Import JS Dom.

Definition build : Render.Build :=
  {| Render.path_indent := Path.indent12;
     Render.css_base := "      ";
     Render.warning := "clip-path with path() not supported, falling back to border-radius" |}.

Definition rgba_pattern : regex :=
  cat_all [Char "r"; Char "g"; Char "b"; Opt (Char "a"); Char backslash]
    (Group 1 (Cat (Group 2 (Plus (NoneOf [")"%char]))) (Char backslash))).

Definition isTransparentColor : string -> bool :=
  Initializer.isTransparentColor rgba_pattern false.

Definition deriveCornerSmoothing : string -> float := Initializer.deriveCornerSmoothing.

Definition renderSquircle := Initializer.renderSquircle build supports_path.
Definition squircleObserver := Initializer.squircleObserver build supports_path.
Definition resize_callback := Initializer.resize_callback build supports_path.
Definition initializeElement :=
  Initializer.initializeElement build supports_path rgba_pattern false.
Definition scan := Initializer.scan build supports_path rgba_pattern false.
Definition disconnect := Initializer.disconnect.

End Init.

(** The sibling build of the initialiser ([src/unnamed/part_000]).  Its
    pattern is [/rgba?\(([^)]+)\)/i], and clip-path support is the constant
    [supportsClipPathPath] computed when the script is loaded. *)

Module InitRobust.
Import JS Dom.

Definition build : Render.Build :=
  {| Render.path_indent := Path.indent12;
     Render.css_base := "      ";
     Render.warning := "clip-path: path() unsupported. Falling back to border-radius." |}.

Definition rgba_pattern : regex :=
  cat_all [Char "r"; Char "g"; Char "b"; Opt (Char "a"); Char "("; Group 1 (Plus (NoneOf [")"%char]))]
    (Char ")").

Definition isTransparentColor : string -> bool :=
  Initializer.isTransparentColor rgba_pattern true.

Definition deriveCornerSmoothing : string -> float := Initializer.deriveCornerSmoothing.

Section Loaded.
Variable supportsClipPathPath : bool.

Definition renderSquircle :=
  Initializer.renderSquircle build (λ _, supportsClipPathPath).
Definition initializeElement :=
  Initializer.initializeElement build (λ _, supportsClipPathPath) rgba_pattern true.
Definition scan := Initializer.scan build (λ _, supportsClipPathPath) rgba_pattern true.
End Loaded.

End InitRobust.

(** ** Notions used by the statements *)

Module FloatOrder.

(** A key whose lexicographic order is the order [SFcompare] decides on
    the values that are not NaN. *)
Definition key (x : spec_float) : Z * Z * Z :=
  match x with
  | S754_infinity true => (-2, 0, 0)
  | S754_finite true m e => (-1, - e, - Zpos m)
  | S754_zero _ => (0, 0, 0)
  | S754_nan => (0, 0, 0)
  | S754_finite false m e => (1, e, Zpos m)
  | S754_infinity false => (2, 0, 0)
  end%Z.

Definition klt (a b : Z * Z * Z) : Prop :=
  (a.1.1 < b.1.1 ∨ (a.1.1 = b.1.1 ∧ (a.1.2 < b.1.2 ∨ (a.1.2 = b.1.2 ∧ a.2 < b.2))))%Z.

(** [kle a b]: [b] is not below [a]. *)
Definition kle (a b : Z * Z * Z) : Prop := ¬ klt b a.

Definition fkey (x : float) : Z * Z * Z := key (Prim2SF x).

End FloatOrder.

Module Geometry.
Import Path.

(** The distance between two points that lie on a common horizontal or
    vertical line. *)
Definition axis_distance (p q : float * float) : float :=
  (abs (q.1 - p.1) + abs (q.2 - p.2))%float.

(** A corner of the standard approximation of a circle of radius [r] by
    four cubic curves: each control point lies at distance [r * K] from
    the end point it is attached to, along the tangent there. *)
Definition circular_arc_corner (r : float) (c : corner) : Prop :=
  axis_distance (arc_start c) (control1 c) = (r * K)%float ∧
  axis_distance (control2 c) (arc_end c) = (r * K)%float.

(** A corner whose control points are its end points: the curve is the
    straight segment between them. *)
Definition chamfer_corner (c : corner) : Prop :=
  control1 c = arc_start c ∧ control2 c = arc_end c.

End Geometry.

Module Unchanged.
Import Dom.

(** No styling mutation between two documents: the elements, the
    [<style>] objects and the children of the head are the same. *)
Definition same_styling (d d' : Doc) : Prop :=
  elems d = elems d' ∧ styleObjects d = styleObjects d' ∧ head d = head d'.

End Unchanged.

(** ** Concrete documents *)

Module Examples.
Import Dom.

Definition plain_computed : ComputedStyle :=
  {| sheet_position := "static"; borderTopWidth := "0px";
     borderTopColor := "rgb(0, 0, 0)"; borderTopStyle := "none";
     backgroundColor := "rgba(0, 0, 0, 0)"; backgroundImage := "none";
     backgroundShorthand := ""; borderTopLeftRadius := "0px" |}.

Definition empty_style : InlineStyle :=
  {| clipPath := ""; position := ""; background := ""; properties := ∅ |}.

(** An element measuring [w] by [h]. *)
Definition sized (w h : float) : Element :=
  {| box := {| rect_width := w; rect_height := h; clientWidth := w; clientHeight := h |};
     classList := ["card"]; style := empty_style; computed := plain_computed;
     attributes := ∅ |}.

(** A page with one element, of handle 0. *)
Definition page (el : Element) : Doc :=
  {| elems := {[ 0 := el ]}; styleObjects := ∅; head := []; supports_path := true;
     console := [] |}.

Definition first_build (el : Element) : Render.State :=
  {| Render.doc := page el; Render.squircleCounter := 0 |}.

Definition second_build (el : Element) : EsmFixed.State :=
  {| EsmFixed.doc := page el; EsmFixed.supportsClipPathPath := true;
     EsmFixed.CLASS_MAP := ∅; EsmFixed.STYLE_MAP := ∅; EsmFixed.SIZE_MAP := ∅;
     EsmFixed.squircleCounter := 0 |}.

(** [{cornerRadius: 10, cornerSmoothing: 1, borderWidth: 4}] and the same
    without a border. *)
Definition bordered : Render.RenderOptions :=
  {| Render.cornerRadius := 10; Render.cornerSmoothing := Some 1%float;
     Render.preserveSmoothing := None; Render.borderWidth := Some 4%float |}.

Definition simple : Render.RenderOptions :=
  {| Render.cornerRadius := 10; Render.cornerSmoothing := Some 1%float;
     Render.preserveSmoothing := None; Render.borderWidth := None |}.

End Examples.

(** ** Auxiliary style records and reachable states *)

Module Auxiliary.
Import Dom.

(** The rule of the attached [<style>] of handle [h] selects the element
    [el]: the id of the [<style>] is the style id of one of its classes. *)
Definition applies_to (d : Doc) (el : Element) (h : nat) : Prop :=
  Exists (λ c, has_id d (Render.style_id c) h) (classList el).

#[global] Instance applies_to_dec d el h : Decision (applies_to d el h).
Proof. unfold applies_to. apply _. Defined.

(** The auxiliary style records of an element. *)
Definition auxiliary_styles (d : Doc) (el : Element) : list nat :=
  filter (applies_to d el) (head d).

(** The class names that mark an assigned identifier. *)
Definition is_marker (c : string) : bool := JS.startsWith c "squircle-".

End Auxiliary.

(** The states of the second build that a page can reach: from a page
    without markers or [<style>] elements, by renders with any options and by
    changes of the measured boxes. *)

Module FixedModel.
Import Dom Auxiliary EsmFixed.

Definition initial (s : State) : Prop :=
  CLASS_MAP s = ∅ ∧ STYLE_MAP s = ∅ ∧ SIZE_MAP s = ∅ ∧ squircleCounter s = 0
  ∧ head (doc s) = [] ∧ styleObjects (doc s) = ∅
  ∧ ∀ e el c, elems (doc s) !! e = Some el → c ∈ classList el → is_marker c = false.

Inductive step : State → State → Prop :=
| step_render s e o : step s (renderSquircle s e o)
| step_resize s e b : step s (set_doc (update_element e (set_box b)) s).

Inductive reachable : State → Prop :=
| reachable_initial s : initial s → reachable s
| reachable_step s s' : reachable s → step s s' → reachable s'.

(** The bookkeeping invariant of the second build. *)
Record Inv (s : State) : Prop := {
  inv_nodup : NoDup (head (doc s));
  inv_head : ∀ h, h ∈ head (doc s) ↔ ∃ e, STYLE_MAP s !! e = Some h;
  inv_style_inj : ∀ e e' h,
    STYLE_MAP s !! e = Some h → STYLE_MAP s !! e' = Some h → e = e';
  inv_style : ∀ e h, STYLE_MAP s !! e = Some h →
    ∃ c, CLASS_MAP s !! e = Some c ∧ has_id (doc s) (Render.style_id c) h;
  inv_class : ∀ e c, CLASS_MAP s !! e = Some c →
    ∃ k, c = Render.class_name k ∧ k ≤ squircleCounter s;
  inv_class_inj : ∀ e e' c,
    CLASS_MAP s !! e = Some c → CLASS_MAP s !! e' = Some c → e = e';
  inv_marker : ∀ e el c, elems (doc s) !! e = Some el → c ∈ classList el →
    is_marker c = true → CLASS_MAP s !! e = Some c;
  inv_class_elem : ∀ e c, CLASS_MAP s !! e = Some c →
    ∃ el, elems (doc s) !! e = Some el ∧ c ∈ classList el
}.

(** The state a border-mode render leaves is one on which the same render
    changes nothing. *)
Definition settled_border (s : State) (e : nat) (o : RenderOptions) (el : Element) : Prop :=
  let width := clientWidth (box el) in
  let height := clientHeight (box el) in
  let bw := default 0%float (Render.borderWidth o) in
  let iw := Render.innerWidth width bw in
  let ih := Render.innerHeight height bw in
  let ir := Render.innerRadius (Render.cornerRadius o) bw in
  SIZE_MAP s !! e = Some (width, height)
  ∧ clipPath (style el)
    = path_value (getSvgPath (path_options width height (Render.cornerRadius o) o))
  ∧ computed_position el ≠ "static"
  ∧ ∃ c h, CLASS_MAP s !! e = Some c ∧ c ≠ "" ∧ STYLE_MAP s !! e = Some h
           ∧ ∀ st, styleObjects (doc s) !! h = Some st →
               textContent st = border_css c (getSvgPath (path_options iw ih ir o)) iw ih bw.

(** The state a simple-mode render leaves. *)
Definition settled_simple (s : State) (e : nat) (o : RenderOptions) (el : Element) : Prop :=
  let width := clientWidth (box el) in
  let height := clientHeight (box el) in
  SIZE_MAP s !! e = Some (width, height)
  ∧ clipPath (style el)
    = path_value (getSvgPath (path_options width height (Render.cornerRadius o) o))
  ∧ (CLASS_MAP s !! e = None ∨ CLASS_MAP s !! e = Some "").

End FixedModel.

(** The states of [init.iife.js] that a page can reach: from a page whose
    attached [<style>] elements have distinct ids and where nothing is
    tracked yet, by scans, initialisations, changes of the measured boxes,
    resize notifications and disconnections. *)

Module InitModel.
Import Dom Initializer.

Definition unique_ids (d : Doc) : Prop :=
  NoDup (head d)
  ∧ ∀ h1 h2 i, h1 ∈ head d → h2 ∈ head d → has_id d i h1 → has_id d i h2 → h1 = h2.

Definition initial (s : State) : Prop :=
  observers s = ∅ ∧ elementObservers s = ∅ ∧ unique_ids (doc s).

Inductive step : State → State → Prop :=
| step_scan s : step s (Init.scan s)
| step_initialize s e : step s (Init.initializeElement s e)
| step_resize s e b : step s (set_doc (update_element e (set_box b)) s)
| step_notify s observer e : step s (Init.resize_callback s observer e)
| step_disconnect s e : step s (Init.disconnect s e).

Inductive reachable : State → Prop :=
| reachable_initial s : initial s → reachable s
| reachable_step s s' : reachable s → step s s' → reachable s'.

(** A page with one element, of handle 0, carrying the two attributes. *)
Definition marked (smoothing radius : string) : Element :=
  {| box := box (Examples.sized 100 50); classList := ["card"];
     style := Examples.empty_style; computed := Examples.plain_computed;
     attributes := {[ "data-corner-smoothing" := smoothing; "data-corner-radius" := radius ]} |}.

(** The same element with a solid red border of 4px on a white
    background. *)
Definition framed (smoothing radius : string) : Element :=
  {| box := box (Examples.sized 100 50); classList := ["card"];
     style := Examples.empty_style;
     computed :=
       {| sheet_position := "static"; borderTopWidth := "4px";
          borderTopColor := "rgb(255, 0, 0)"; borderTopStyle := "solid";
          backgroundColor := "rgb(255, 255, 255)"; backgroundImage := "none";
          backgroundShorthand := "rgb(255, 255, 255)"; borderTopLeftRadius := "10px" |};
     attributes := {[ "data-corner-smoothing" := smoothing; "data-corner-radius" := radius ]} |}.

Definition loaded (el : Element) : State :=
  {| rstate := Examples.first_build el; observers := ∅; elementObservers := ∅ |}.

End InitModel.

(** ** Frames, tracking and two more pages *)

Module Frame.
Import Dom.

(** What no function of the library writes in an element: its measured
    box, its computed style and its attributes. *)
Definition same_element_data (el el' : Element) : Prop :=
  box el' = box el ∧ computed el' = computed el ∧ attributes el' = attributes el.

(** What a render leaves alone: the above, the inline background and the
    custom properties. *)
Definition untouched (el el' : Element) : Prop :=
  same_element_data el el'
  ∧ background (style el') = background (style el)
  ∧ properties (style el') = properties (style el).

(** [frames R e d d']: from [d] to [d'] no element appears or disappears,
    every element is related to its former state by [R], and the elements
    other than [e] are the same. *)
Definition frames (R : Element → Element → Prop) (e : nat) (d d' : Doc) : Prop :=
  ∀ x, match elems d !! x with
       | None => elems d' !! x = None
       | Some el => ∃ el', elems d' !! x = Some el' ∧ R el el' ∧ (x ≠ e → el' = el)
       end.

End Frame.

Module FirstBuild.
Import JS Dom Render.


End FirstBuild.

Module Tracking.
Import Dom Auxiliary Initializer.

(** The value of [data-corner-smoothing] on the element of handle [x]. *)
Definition smoothing_attribute (d : Doc) (x : nat) : option string :=
  elems d !! x ≫= λ el, attributes el !! "data-corner-smoothing".

(** Nothing is left to do for an element that is tracked, or that has no
    smoothing attribute or an empty one. *)
Definition settled (s : State) (x : nat) : Prop :=
  is_Some (elementObservers s !! x)
  ∨ smoothing_attribute (doc s) x = None ∨ smoothing_attribute (doc s) x = Some "".

(** Every tracked element has its own live observer, and every live
    observer is the one recorded for its target. *)
Definition observed_once (s : State) : Prop :=
  (∀ e ob o, elementObservers s !! e = Some (ob, o) →
     observers s !! ob = Some {| target := e; options := o; observing := true |})
  ∧ (∀ ob r, observers s !! ob = Some r → observing r = true →
       elementObservers s !! target r = Some (ob, options r)).

(** The class list after the loop of [disconnect] over [cs]. *)
Definition without_markers (cs : list string) (l : list string) : list string :=
  foldl (λ l c, if is_marker c then classList_remove c l else l) l cs.

(** The markers among [cs]. *)
Definition markers (cs : list string) : list string :=
  filter (λ c, is_marker c = true) cs.

End Tracking.

Module Gallery.
Import Dom.

(** A page with two elements, of handles 0 and 1, under the second
    build. *)
Definition two_cards : EsmFixed.State :=
  {| EsmFixed.doc :=
       {| elems := {[ 0 := Examples.sized 100 50; 1 := Examples.sized 80 80 ]};
          styleObjects := ∅; head := []; supports_path := true; console := [] |};
     EsmFixed.supportsClipPathPath := true;
     EsmFixed.CLASS_MAP := ∅; EsmFixed.STYLE_MAP := ∅; EsmFixed.SIZE_MAP := ∅;
     EsmFixed.squircleCounter := 0 |}.

(** A page of the first build on a browser without clip-path paths. *)
Definition unsupported_page : Render.State :=
  {| Render.doc :=
       {| elems := {[ 0 := Examples.sized 100 50 ]};
          styleObjects := ∅; head := []; supports_path := false; console := [] |};
     Render.squircleCounter := 0 |}.

End Gallery.

(** * Verification *)

(** ** Facts about the built-ins *)

Module FloatFacts.
Import JS FloatOrder.

Ltac compare_cases ex ey mx my :=
  rewrite Pos.compare_cont_spec; simpl;
  destruct (Z.compare_spec ex ey), (Pos.compare_spec mx my); simpl;
  (split; [ intros; repeat split; try discriminate; try lia
          | intros (? & ? & ?); try reflexivity; try lia ]).

Lemma SFltb_key x y :
  SFltb x y = true ↔ x ≠ S754_nan ∧ y ≠ S754_nan ∧ klt (key x) (key y).
Proof.
  unfold SFltb, klt.
  destruct x as [[]|[]| |[] mx ex], y as [[]|[]| |[] my ey]; simpl;
    try (split; [discriminate | intros (? & ? & ?); try congruence; lia]);
    try (split; [intros _; repeat split; try discriminate; lia | reflexivity]).
  - compare_cases ex ey mx my.
  - compare_cases ex ey mx my.
Qed.

Lemma SFleb_key x y :
  SFleb x y = true ↔ x ≠ S754_nan ∧ y ≠ S754_nan ∧ kle (key x) (key y).
Proof.
  unfold SFleb, kle, klt.
  destruct x as [[]|[]| |[] mx ex], y as [[]|[]| |[] my ey]; simpl;
    try (split; [discriminate | intros (? & ? & ?); try congruence; lia]);
    try (split; [intros _; repeat split; try discriminate; lia | reflexivity]).
  - compare_cases ex ey mx my.
  - compare_cases ex ey mx my.
Qed.

Lemma kle_trans a b c : kle a b → kle b c → kle a c.
Proof. unfold kle, klt. lia. Qed.

Lemma SFcompare_refl p : p ≠ S754_nan → SFcompare p p = Some Eq.
Proof.
  destruct p as [[]|[]| |[] m e]; simpl; try congruence; intros _;
    rewrite Z.compare_refl, Pos.compare_cont_spec, Pos.compare_refl; reflexivity.
Qed.

Lemma is_nan_spec x : is_nan x = true ↔ Prim2SF x = S754_nan.
Proof.
  unfold is_nan. rewrite FloatAxioms.eqb_spec. unfold SFeqb. split.
  - intros H. destruct (Prim2SF x) as [s|s| |s m e] eqn:E; try reflexivity;
      rewrite SFcompare_refl in H by discriminate; discriminate.
  - intros ->. reflexivity.
Qed.

Lemma is_nan_false x : is_nan x = false ↔ Prim2SF x ≠ S754_nan.
Proof.
  pose proof (is_nan_spec x) as [H1 H2].
  destruct (is_nan x); split; intros H; try done.
  - exfalso. apply H. by apply H1.
  - intros E. by apply H2 in E.
Qed.

Lemma is_nan_eq x : is_nan x = true → x = nan.
Proof. rewrite is_nan_spec. intros H. apply Prim2SF_inj. rewrite H. reflexivity. Qed.

Lemma ltb_key x y :
  (x <? y)%float = true ↔ is_nan x = false ∧ is_nan y = false ∧ klt (fkey x) (fkey y).
Proof. rewrite ltb_spec, SFltb_key, !is_nan_false. reflexivity. Qed.

Lemma leb_key x y :
  (x <=? y)%float = true ↔ is_nan x = false ∧ is_nan y = false ∧ kle (fkey x) (fkey y).
Proof. rewrite leb_spec, SFleb_key, !is_nan_false. reflexivity. Qed.

Lemma ltb_nan_r x y : is_nan y = true → (x <? y)%float = false.
Proof.
  intros H. destruct (x <? y)%float eqn:E; [|done].
  apply ltb_key in E. destruct E as (_ & E & _). congruence.
Qed.

Lemma is_zero_spec x : is_zero x = true ↔ ∃ s, Prim2SF x = S754_zero s.
Proof.
  unfold is_zero. rewrite FloatAxioms.eqb_spec.
  change (Prim2SF PrimFloat.zero) with (S754_zero false).
  unfold SFeqb. destruct (Prim2SF x) as [[]|[]| |[] m e]; simpl; split;
    try discriminate; try (intros [s Hs]; discriminate); eauto.
Qed.

Lemma get_sign_zero x s : Prim2SF x = S754_zero s → get_sign x = s.
Proof.
  intros H. unfold get_sign.
  assert (Hz : is_zero x = true) by (apply is_zero_spec; eauto).
  rewrite Hz, ltb_spec, div_spec, H.
  change (Prim2SF 1) with (S754_finite false 4503599627370496 (-52)).
  change (Prim2SF 0) with (S754_zero false).
  destruct s; reflexivity.
Qed.

Lemma is_neg_zero_eq x : is_neg_zero x = true → x = neg_zero.
Proof.
  unfold is_neg_zero. intros [Hz Hs]%andb_true_iff.
  apply is_zero_spec in Hz as [s Hx].
  rewrite (get_sign_zero _ _ Hx) in Hs. subst s.
  apply Prim2SF_inj. rewrite Hx. reflexivity.
Qed.

Lemma is_pos_zero_eq x : is_pos_zero x = true → x = PrimFloat.zero.
Proof.
  unfold is_pos_zero. intros [Hz Hs]%andb_true_iff.
  apply is_zero_spec in Hz as [s Hx].
  rewrite (get_sign_zero _ _ Hx) in Hs. destruct s; [discriminate|].
  apply Prim2SF_inj. rewrite Hx. reflexivity.
Qed.

(** *** [Math.min] *)

Lemma min_step_spec lowest number :
  is_nan lowest = false → is_nan number = false →
  let r := min_step lowest number in
  is_nan r = false ∧ (r = lowest ∨ r = number) ∧
  kle (fkey r) (fkey lowest) ∧ kle (fkey r) (fkey number).
Proof.
  intros Hl Hn. unfold min_step.
  destruct (is_neg_zero number && is_pos_zero lowest) eqn:Ez.
  - apply andb_true_iff in Ez as [->%is_neg_zero_eq ->%is_pos_zero_eq].
    unfold kle, klt, fkey. cbn. repeat split; auto; lia.
  - destruct (number <? lowest)%float eqn:E.
    + apply ltb_key in E as (_ & _ & E).
      unfold kle, klt in *. repeat split; auto; lia.
    + assert (¬ klt (fkey number) (fkey lowest)) as E'.
      { intros Hk. assert ((number <? lowest)%float = true) by (apply ltb_key; auto).
        congruence. }
      unfold kle, klt in *. repeat split; auto; lia.
Qed.

Lemma fold_min_spec l : ∀ acc,
  is_nan acc = false → Forall (λ x, is_nan x = false) l →
  let r := fold_left min_step l acc in
  is_nan r = false ∧ (r = acc ∨ r ∈ l) ∧
  kle (fkey r) (fkey acc) ∧ Forall (λ x, kle (fkey r) (fkey x)) l.
Proof.
  induction l as [|x l IH]; intros acc Ha Hl; simpl.
  - repeat split; auto. unfold kle, klt. lia.
  - inversion Hl as [|? ? Hx Hl']; subst.
    destruct (min_step_spec acc x Ha Hx) as (Hn & Hin & Hk1 & Hk2).
    destruct (IH _ Hn Hl') as (Hn' & Hin' & Hk1' & Hk2').
    repeat split; auto.
    + destruct Hin' as [-> | ?]; [|right; by right].
      destruct Hin as [-> | ->]; [by left | right; by left].
    + eapply kle_trans; eauto.
    + constructor; [eapply kle_trans; eauto | done].
Qed.

Lemma existsb_is_nan l : existsb is_nan l = false → Forall (λ x, is_nan x = false) l.
Proof.
  induction l as [|x l IH]; simpl; [constructor|].
  intros [? ?]%orb_false_iff. constructor; auto.
Qed.

(** [Math.min] returns one of its arguments, and none of them is below it;
    with a NaN among them it is NaN. *)
Lemma Math_min_spec l :
  l ≠ [] →
  Math_min l ∈ l ∧ Forall (λ x, (x <? Math_min l)%float = false) l.
Proof.
  intros Hne. unfold Math_min. destruct (existsb is_nan l) eqn:E.
  - split.
    + apply existsb_exists in E as (x & Hx & Hn).
      apply is_nan_eq in Hn. subst x. by apply list_elem_of_In.
    + apply Forall_forall. intros x _. by apply ltb_nan_r.
  - apply existsb_is_nan in E.
    destruct (fold_min_spec l infinity eq_refl E) as (Hn & Hin & _ & Hall).
    split.
    + destruct Hin as [Heq | ?]; [|done].
      rewrite Heq in *. destruct l as [|x l]; [done|].
      inversion Hall as [|? ? Hx _]; subst. inversion E as [|? ? Hxn _]; subst.
      assert (x = infinity) as ->; [|by left].
      apply Prim2SF_inj. apply is_nan_false in Hxn.
      change (Prim2SF infinity) with (S754_infinity false).
      unfold kle, klt, fkey in Hx.
      change (Prim2SF infinity) with (S754_infinity false) in Hx.
      destruct (Prim2SF x) as [[]|[]| |[] m e]; simpl in Hx; try congruence; lia.
    + apply Forall_forall. intros x Hx.
      rewrite Forall_forall in Hall.
      destruct (x <? _)%float eqn:Hlt; [|done].
      apply ltb_key in Hlt as (_ & _ & Hlt). by destruct (Hall x Hx).
Qed.

(** With no NaN among its arguments, [Math.min] is below each of them. *)
Lemma Math_min_le l x :
  Forall (λ y, is_nan y = false) l → x ∈ l → (Math_min l <=? x)%float = true.
Proof.
  intros Hl Hx.
  assert (l ≠ []) as Hne by (intros ->; by apply not_elem_of_nil in Hx).
  destruct (Math_min_spec l Hne) as [Hin Hall].
  rewrite Forall_forall in Hl, Hall.
  apply leb_key. repeat split; auto.
  intros Hk. specialize (Hall x Hx).
  assert ((x <? Math_min l)%float = true); [|congruence].
  apply ltb_key. auto.
Qed.

(** *** Multiplication by one *)

Lemma shr_52 m :
  SpecFloat.iter_pos shr_1 52
    {| shr_m := Zpos (m * 4503599627370496); shr_r := false; shr_s := false |}
  = {| shr_m := Zpos m; shr_r := false; shr_s := false |}.
Proof. rewrite Pos.mul_comm. reflexivity. Qed.

Lemma digits_52 m : digits2_pos (m * 4503599627370496) = (digits2_pos m + 52)%positive.
Proof. rewrite Pos.mul_comm. cbv beta iota delta [Pos.mul]. simpl. lia. Qed.

Lemma SFmul_one_r x :
  valid_binary x = true →
  SF64mul x (S754_finite false 4503599627370496 (-52)) = x.
Proof.
  destruct x as [s|s| |s m e]; simpl; intros Hv;
    try (rewrite xorb_false_r; reflexivity); try reflexivity.
  unfold bounded, canonical_mantissa in Hv.
  apply andb_prop in Hv as [Hc Hb]. apply Z.eqb_eq in Hc.
  unfold SF64mul, SFmul, binary_round_aux.
  assert (H1 : shr_fexp prec emax (Z.pos (m * 4503599627370496)) (e + -52) loc_Exact
               = ({| shr_m := Zpos m; shr_r := false; shr_s := false |}, e)).
  { unfold shr_fexp, Zdigits2. rewrite digits_52.
    replace (Z.pos (digits2_pos m + 52) + (e + -52))%Z
      with (Z.pos (digits2_pos m) + e)%Z by lia.
    rewrite Hc. replace (e - (e + -52))%Z with 52%Z by lia.
    unfold shr, shr_record_of_loc. rewrite shr_52. f_equal. lia. }
  rewrite H1. cbn [shr_m loc_of_shr_record round_nearest_even].
  unfold shr_fexp, Zdigits2. rewrite Hc, Z.sub_diag. cbn [shr shr_record_of_loc shr_m].
  rewrite Hb, xorb_false_r. reflexivity.
Qed.

Lemma mul_one_r (x : float) : (x * 1)%float = x.
Proof.
  apply Prim2SF_inj. rewrite mul_spec.
  change (Prim2SF 1) with (S754_finite false 4503599627370496 (-52)).
  apply SFmul_one_r, Prim2SF_valid.
Qed.

(** *** A quotient of two finite numbers is a number *)

Lemma shr_1_nonneg r : (0 ≤ shr_m r)%Z → (0 ≤ shr_m (shr_1 r))%Z.
Proof.
  destruct r as [m rb sb]. simpl.
  destruct m as [|[p|p|]|[p|p|]]; simpl; lia.
Qed.

Lemma iter_pos_nonneg n : ∀ r,
  (0 ≤ shr_m r)%Z → (0 ≤ shr_m (SpecFloat.iter_pos shr_1 n r))%Z.
Proof.
  induction n as [n IH|n IH|]; intros r Hr; simpl.
  - apply IH, IH, shr_1_nonneg, Hr.
  - apply IH, IH, Hr.
  - apply shr_1_nonneg, Hr.
Qed.

Lemma shr_fexp_nonneg m e l :
  (0 ≤ m)%Z → (0 ≤ shr_m (fst (shr_fexp prec emax m e l)))%Z.
Proof.
  intros Hm. unfold shr_fexp, shr.
  assert (0 ≤ shr_m (shr_record_of_loc m l))%Z as H0.
  { destruct l as [|[]]; simpl; lia. }
  destruct (_ - e)%Z; simpl; auto. by apply iter_pos_nonneg.
Qed.

Lemma binary_round_aux_not_nan s m e l :
  (0 ≤ m)%Z → binary_round_aux prec emax s m e l ≠ S754_nan.
Proof.
  intros Hm. unfold binary_round_aux.
  pose proof (shr_fexp_nonneg m e l Hm) as H1.
  destruct (shr_fexp prec emax m e l) as [mrs' e'].
  assert (0 ≤ round_nearest_even (shr_m mrs') (loc_of_shr_record mrs'))%Z as H2.
  { simpl in H1. unfold round_nearest_even.
    destruct (loc_of_shr_record mrs') as [|[]]; try lia.
    destruct (Z.even _); lia. }
  pose proof (shr_fexp_nonneg _ e' loc_Exact H2) as H3.
  destruct (shr_fexp prec emax _ e' loc_Exact) as [mrs'' e''].
  simpl in H3.
  destruct (shr_m mrs''); try discriminate; [|lia].
  destruct (_ <=? _)%Z; discriminate.
Qed.

Lemma SFdiv_finite_not_nan s1 m1 e1 s2 m2 e2 :
  SF64div (S754_finite s1 m1 e1) (S754_finite s2 m2 e2) ≠ S754_nan.
Proof.
  unfold SF64div, SFdiv, SFdiv_core_binary.
  set (e' := Z.min _ _).
  set (m' := match _ with Z0 => _ | Zpos _ => _ | Zneg _ => _ end).
  assert (0 ≤ m')%Z as Hm'.
  { subst m'. destruct (_ - e')%Z; try lia. apply Z.shiftl_nonneg. lia. }
  pose proof (Z_div_mod m' (Zpos m2) eq_refl) as Hd.
  destruct (Z.div_eucl m' (Z.pos m2)) as [q r].
  apply binary_round_aux_not_nan. destruct Hd as [Hq Hr]. nia.
Qed.

(** Halving a number gives a number. *)
Lemma half_not_nan x : is_nan x = false → is_nan (x / 2)%float = false.
Proof.
  rewrite !is_nan_false, div_spec.
  change (Prim2SF 2) with (S754_finite false 4503599627370496 (-51)).
  destruct (Prim2SF x) as [s|s| |s m e]; try done.
  intros _. apply SFdiv_finite_not_nan.
Qed.

(** *** Comparisons with zero *)

Lemma ltb_zero_truthy x : (0 <? x)%float = true → truthy x = true.
Proof.
intros H. apply ltb_key in H as (_ & Hn & Hk).
unfold truthy. rewrite Hn. simpl.
destruct (is_zero x) eqn:Ez; [|done].
apply is_zero_spec in Ez as [sg Hx].
unfold fkey in Hk. rewrite Hx in Hk.
change (Prim2SF 0) with (S754_zero false) in Hk. unfold klt in Hk. simpl in Hk. lia.
Qed.

Lemma ltb_zero_not_leb x : (0 <? x)%float = true → (x <=? 0)%float = false.
Proof.
intros H. apply ltb_key in H as (_ & _ & Hk).
destruct (x <=? 0)%float eqn:E; [|done].
apply leb_key in E as (_ & _ & E). by destruct E.
Qed.

(** *** Multiplication commutes *)

Lemma SFmul_comm x y : SF64mul x y = SF64mul y x.
Proof.
destruct x as [s|s| |s m e], y as [s'|s'| |s' m' e']; simpl;
  rewrite ?(xorb_comm s s'); try reflexivity.
by rewrite (Pos.mul_comm m m'), (Z.add_comm e e').
Qed.

Lemma mul_comm (x y : float) : (x * y)%float = (y * x)%float.
Proof. apply Prim2SF_inj. rewrite !mul_spec. apply SFmul_comm. Qed.

(** *** [Math.max] *)

Lemma max_step_spec highest number :
  is_nan highest = false → is_nan number = false →
  let r := max_step highest number in
  is_nan r = false ∧ (r = highest ∨ r = number) ∧
  kle (fkey highest) (fkey r) ∧ kle (fkey number) (fkey r).
Proof.
intros Hl Hn. unfold max_step.
destruct (is_pos_zero number && is_neg_zero highest) eqn:Ez.
- apply andb_true_iff in Ez as [->%is_pos_zero_eq ->%is_neg_zero_eq].
  unfold kle, klt, fkey. cbn. repeat split; auto; lia.
- destruct (highest <? number)%float eqn:E.
  + apply ltb_key in E as (_ & _ & E).
    unfold kle, klt in *. repeat split; auto; lia.
  + assert (¬ klt (fkey highest) (fkey number)) as E'.
    { intros Hk. assert ((highest <? number)%float = true) by (apply ltb_key; auto).
      congruence. }
    unfold kle, klt in *. repeat split; auto; lia.
Qed.

Lemma fold_max_spec l : ∀ acc,
  is_nan acc = false → Forall (λ x, is_nan x = false) l →
  let r := fold_left max_step l acc in
  is_nan r = false ∧ (r = acc ∨ r ∈ l) ∧
  kle (fkey acc) (fkey r) ∧ Forall (λ x, kle (fkey x) (fkey r)) l.
Proof.
induction l as [|x l IH]; intros acc Ha Hl; simpl.
- repeat split; auto. unfold kle, klt. lia.
- inversion Hl as [|? ? Hx Hl']; subst.
  destruct (max_step_spec acc x Ha Hx) as (Hn & Hin & Hk1 & Hk2).
  destruct (IH _ Hn Hl') as (Hn' & Hin' & Hk1' & Hk2').
  repeat split; auto.
  + destruct Hin' as [-> | ?]; [|right; by right].
    destruct Hin as [-> | ->]; [by left | right; by left].
  + eapply kle_trans; eauto.
  + constructor; [eapply kle_trans; eauto | done].
Qed.

(** [Math.max] returns one of its arguments, and none of them is above it;
    with a NaN among them it is NaN. *)
Lemma Math_max_spec l :
  l ≠ [] →
  Math_max l ∈ l ∧ Forall (λ x, (Math_max l <? x)%float = false) l.
Proof.
intros Hne. unfold Math_max. destruct (existsb is_nan l) eqn:E.
- split.
  + apply existsb_exists in E as (x & Hx & Hn).
    apply is_nan_eq in Hn. subst x. by apply list_elem_of_In.
  + apply Forall_forall. intros x _.
    destruct (nan <? x)%float eqn:Hlt; [|done].
    apply ltb_key in Hlt as (Hlt & _). discriminate.
- apply existsb_is_nan in E.
  destruct (fold_max_spec l neg_infinity eq_refl E) as (Hn & Hin & _ & Hall).
  split.
  + destruct Hin as [Heq | ?]; [|done].
    rewrite Heq in *. destruct l as [|x l]; [done|].
    inversion Hall as [|? ? Hx _]; subst. inversion E as [|? ? Hxn _]; subst.
    assert (x = neg_infinity) as ->; [|by left].
    apply Prim2SF_inj. apply is_nan_false in Hxn.
    change (Prim2SF neg_infinity) with (S754_infinity true).
    unfold kle, klt, fkey in Hx.
    change (Prim2SF neg_infinity) with (S754_infinity true) in Hx.
    destruct (Prim2SF x) as [[]|[]| |[] m e]; simpl in Hx; try congruence; lia.
  + apply Forall_forall. intros x Hx.
    rewrite Forall_forall in Hall.
    destruct (_ <? x)%float eqn:Hlt; [|done].
    apply ltb_key in Hlt as (_ & _ & Hlt). by destruct (Hall x Hx).
Qed.

End FloatFacts.

(** ** Facts about the document *)

Module DomFacts.
Import Dom.

Lemma getElementById_Some d i h :
  getElementById i d = Some h → h ∈ head d ∧ has_id d i h.
Proof.
unfold getElementById. intros ([k x] & Hf & ->)%fmap_Some.
apply list_find_Some in Hf as (Hk & HP & _). split; [|done].
by eapply list_elem_of_lookup_2.
Qed.

Lemma getElementById_None d i :
  getElementById i d = None ↔ Forall (λ h, ¬ has_id d i h) (head d).
Proof. unfold getElementById. rewrite fmap_None. apply list_find_None. Qed.

Lemma getElementById_ext d d' i :
  styleObjects d = styleObjects d' → head d = head d' →
  getElementById i d = getElementById i d'.
Proof.
intros Hs Hh. unfold getElementById. rewrite Hh. f_equal.
apply list_find_ext. intros x. unfold has_id. by rewrite Hs.
Qed.

Lemma has_id_set_textContent d h t i x :
  has_id (set_textContent h t d) i x ↔ has_id d i x.
Proof.
unfold has_id, set_textContent, set_styleObjects. simpl.
destruct (decide (x = h)) as [->|Hne].
- rewrite lookup_alter_eq. by destruct (styleObjects d !! h).
- by rewrite lookup_alter_ne.
Qed.

Lemma getElementById_set_textContent d h t i :
  getElementById i (set_textContent h t d) = getElementById i d.
Proof.
unfold getElementById. f_equal. simpl.
apply list_find_ext. intros x. apply has_id_set_textContent.
Qed.

Lemma lookup_set_textContent d h t :
  styleObjects (set_textContent h t d) !! h
  = (λ s, {| id := id s; textContent := t |}) <$> styleObjects d !! h.
Proof. unfold set_textContent, set_styleObjects. simpl. apply lookup_alter_eq. Qed.

(** A created, named and appended [<style>] is what [getElementById]
    finds when no attached element had the id. *)
Lemma getElementById_created d i :
  getElementById i d = None →
  let h := (createStyle d).1 in
  let d' := appendChild h (set_id h i (createStyle d).2) in
  getElementById i d' = Some h ∧ styleObjects d' !! h = Some {| id := i; textContent := "" |}.
Proof.
intros Hnone h d'. subst h d'. unfold createStyle. simpl.
set (h := fresh (dom (styleObjects d))).
assert (styleObjects d !! h = None) as Hfresh.
{ apply not_elem_of_dom. apply is_fresh. }
assert (∀ x, x ≠ h →
          has_id (appendChild h (set_id h i (set_styleObjects <[h:={| id := ""; textContent := "" |}]> d))) i x
          ↔ has_id d i x) as Hother.
{ intros x Hx. unfold has_id. simpl. by rewrite lookup_alter_ne, lookup_insert_ne. }
assert (has_id (appendChild h (set_id h i (set_styleObjects <[h:={| id := ""; textContent := "" |}]> d))) i h)
  as Hh.
{ unfold has_id. simpl. by rewrite lookup_alter_eq, lookup_insert_eq. }
split.
- unfold getElementById. cbn [head appendChild set_head set_id set_styleObjects].
  rewrite list_find_app_r.
  + cbn [list_find]. rewrite decide_True by exact Hh. reflexivity.
  + apply list_find_None, Forall_forall. intros x [Hx Hin]%list_elem_of_filter.
    rewrite Hother by done.
    apply getElementById_None in Hnone. rewrite Forall_forall in Hnone. by apply Hnone.
- simpl. by rewrite lookup_alter_eq, lookup_insert_eq.
Qed.

End DomFacts.

(** ** The path generator *)

Module PathSpec.
Import JS Path Geometry FloatOrder FloatFacts.

Lemma append_nil_l s : "" +:+ s = s.
Proof. reflexivity. Qed.

Lemma append_cons c s t : String c s +:+ t = String c (s +:+ t).
Proof. reflexivity. Qed.

Lemma append_assoc s t u : (s +:+ t) +:+ u = s +:+ (t +:+ u).
Proof. induction s as [|c s IH]; [reflexivity|]. rewrite !append_cons. by rewrite IH. Qed.

Lemma append_nil_r s : s +:+ "" = s.
Proof. induction s as [|c s IH]; [reflexivity|]. rewrite append_cons. by rewrite IH. Qed.

Ltac norm_append :=
  repeat (rewrite ?append_assoc, ?append_cons, ?append_nil_l, ?append_nil_r).

(** The string returned by [getSvgPath] is the path data of the outline. *)
Lemma getSvgPath_serialize indent o : getSvgPath indent o = serialize indent (outline o).
Proof.
  destruct o as [w h cr s p].
  cbv [getSvgPath outline serialize command_text outline_text join foldr
       width height cornerRadius cornerSmoothing effectiveRadius controlOffset].
  change (num 0) with "0".
  generalize (Math_min [cr; (w / 2)%float; (h / 2)%float]); intros r.
  generalize (r * (1 - s * K))%float; intros cp.
  norm_append. reflexivity.
Qed.

Lemma ltb_not_nan_r x y : (x <? y)%float = true → is_nan y = false.
Proof. intros H. apply ltb_key in H. tauto. Qed.

Lemma leb_not_nan_r x y : (x <=? y)%float = true → is_nan y = false.
Proof. intros H. apply leb_key in H. tauto. Qed.

(** C1: for a box of positive size and a radius that is not negative, the
    outline is drawn with the effective radius
    [r = min(cornerRadius, width/2, height/2)], which is one of the three
    and at most each of them; [generateOutline(100,100,20,1)] has radius
    20 and control offset [20 * (1 - 0.552284749831)], about 8.954, starts
    at (20,0) and its first edge ends at (80,0). *)
Theorem getSvgPath_effective_radius (indent : string) (w h cr s : float) (p : option bool) :
  (0 <? w)%float = true → (0 <? h)%float = true → (0 <=? cr)%float = true →
  let o := {| width := w; height := h; cornerRadius := cr; cornerSmoothing := s;
              preserveSmoothing := p |} in
  let r := Math_min [cr; w / 2; h / 2]%float in
  let cp := (r * (1 - s * K))%float in
  let o1 := {| width := 100; height := 100; cornerRadius := 20; cornerSmoothing := 1;
               preserveSmoothing := None |} in
  getSvgPath indent o
    = serialize indent
        [ MoveTo r 0; LineTo (w - r) 0; CurveTo (w - cp) 0 w cp w r;
          LineTo w (h - r); CurveTo w (h - cp) (w - cp) h (w - r) h;
          LineTo r h; CurveTo cp h 0 (h - cp) 0 (h - r);
          LineTo 0 r; CurveTo 0 cp cp 0 r 0; ClosePath ]%float
  ∧ r ∈ [cr; w / 2; h / 2]%float
  ∧ (r <=? cr)%float = true ∧ (r <=? w / 2)%float = true ∧ (r <=? h / 2)%float = true
  ∧ effectiveRadius o1 = 20%float
  ∧ controlOffset o1 = (20 * (1 - 0.552284749831))%float
  ∧ (8.954 <? controlOffset o1)%float = true ∧ (controlOffset o1 <? 8.955)%float = true
  ∧ take 2 (outline o1) = [MoveTo 20 0; LineTo 80 0]%float
  ∧ String.prefix ("M 20,0 " +:+ nl +:+ indent10 +:+ "L 80,0 ") (getSvgPath indent10 o1) = true.
Proof.
  intros Hw Hh Hcr o r cp o1.
  assert (Forall (λ y, is_nan y = false) [cr; w / 2; h / 2]%float) as Hnn.
  { repeat constructor.
    - eapply leb_not_nan_r, Hcr.
    - eapply half_not_nan, ltb_not_nan_r, Hw.
    - eapply half_not_nan, ltb_not_nan_r, Hh. }
  split; [apply getSvgPath_serialize|].
  split; [apply Math_min_spec; discriminate|].
  split; [apply Math_min_le; [done | set_solver]|].
  split; [apply Math_min_le; [done | set_solver]|].
  split; [apply Math_min_le; [done | set_solver]|].
  repeat split; vm_compute; reflexivity.
Qed.

Lemma getSvgPath_effective_radius_witness :
  (0 <? 100)%float = true ∧ (0 <? 50)%float = true ∧ (0 <=? 10)%float = true ∧
  Math_min [10; 100 / 2; 50 / 2]%float ∈ [10; 100 / 2; 50 / 2]%float.
Proof.
  repeat split; try reflexivity.
  exact (proj1 (proj2 (getSvgPath_effective_radius indent10 100 50 10 1 None
                         eq_refl eq_refl eq_refl))).
Defined.

(** C7: [getSvgPath] is a function of width, height, radius and smoothing
    alone: the value of [preserveSmoothing] never reaches its result, nor
    the result of either build of [renderSquircle]. *)
Theorem getSvgPath_preserveSmoothing_noop
    (indent : string) (w h cr s : float) (p p' : option bool) :
  getSvgPath indent {| width := w; height := h; cornerRadius := cr;
                       cornerSmoothing := s; preserveSmoothing := p |}
  = getSvgPath indent {| width := w; height := h; cornerRadius := cr;
                         cornerSmoothing := s; preserveSmoothing := p' |}
  ∧ (∀ st e cr' s' bw,
       Esm.renderSquircle st e
         {| Render.cornerRadius := cr'; Render.cornerSmoothing := s';
            Render.preserveSmoothing := p; Render.borderWidth := bw |}
       = Esm.renderSquircle st e
           {| Render.cornerRadius := cr'; Render.cornerSmoothing := s';
              Render.preserveSmoothing := p'; Render.borderWidth := bw |})
  ∧ (∀ st e cr' s' bw,
       EsmFixed.renderSquircle st e
         {| Render.cornerRadius := cr'; Render.cornerSmoothing := s';
            Render.preserveSmoothing := p; Render.borderWidth := bw |}
       = EsmFixed.renderSquircle st e
           {| Render.cornerRadius := cr'; Render.cornerSmoothing := s';
              Render.preserveSmoothing := p'; Render.borderWidth := bw |}).
Proof. repeat split. Qed.

Lemma float_neq x y : PrimFloat.Leibniz.eqb x y = false → x ≠ y.
Proof.
  intros H E. apply FloatAxioms.Leibniz.eqb_spec in E. congruence.
Qed.

(** C2, as stated, fails: at smoothing 0 the control points of
    [generateOutline(100,100,20,0)] are the end points of the curves, at
    distance 0 from them and not at distance [r * K], which is above 11. *)
Lemma smoothing_zero_is_not_circular :
  let o0 := {| width := 100; height := 100; cornerRadius := 20; cornerSmoothing := 0;
               preserveSmoothing := None |} in
  Forall chamfer_corner (corners o0)
  ∧ (11 <? effectiveRadius o0 * K)%float = true
  ∧ ¬ Forall (circular_arc_corner (effectiveRadius o0)) (corners o0).
Proof.
  intros o0. split; [|split].
  - vm_compute. repeat constructor.
  - vm_compute. reflexivity.
  - intros H. inversion H as [|c l [Hd _] _]; subst.
    revert Hd. apply float_neq. vm_compute. reflexivity.
Qed.

(** C2, amended: with smoothing 0 the control offset is the effective
    radius itself, so the control points of every corner are the end
    points of its curve (a straight cut, not an arc); with smoothing 1 the
    control offset is [r * (1 - K)], the offset of the circular-arc
    approximation: on [generateOutline(100,100,20,1)] the control points
    are within 1e-9 of distance [r * K] from the end points. *)
Theorem smoothing_extremes (w h cr : float) (p : option bool) :
  let o0 := {| width := w; height := h; cornerRadius := cr; cornerSmoothing := 0;
               preserveSmoothing := p |} in
  let o1 := {| width := w; height := h; cornerRadius := cr; cornerSmoothing := 1;
               preserveSmoothing := p |} in
  let o := {| width := 100; height := 100; cornerRadius := 20; cornerSmoothing := 1;
              preserveSmoothing := None |} in
  controlOffset o0 = effectiveRadius o0
  ∧ Forall chamfer_corner (corners o0)
  ∧ effectiveRadius o1 = effectiveRadius o0
  ∧ controlOffset o1 = (effectiveRadius o1 * (1 - K))%float
  ∧ Forall (λ c, (abs (axis_distance (arc_start c) (control1 c) - effectiveRadius o * K)
                    <? 1e-9)%float = true
                 ∧ (abs (axis_distance (control2 c) (arc_end c) - effectiveRadius o * K)
                    <? 1e-9)%float = true) (corners o).
Proof.
  intros o0 o1 o.
  assert (controlOffset o0 = effectiveRadius o0) as Hcp.
  { unfold controlOffset. cbn [cornerSmoothing o0].
    change (1 - 0 * K)%float with 1%float. apply mul_one_r. }
  split; [exact Hcp|]. split; [|split; [reflexivity|split; [reflexivity|]]].
  - unfold corners, outline. rewrite Hcp. cbn [corners_from].
    repeat constructor.
  - vm_compute. repeat constructor.
Qed.

End PathSpec.

(** ** The renderer *)

Module RenderSpec.
Import JS Dom Render Unchanged Examples FloatOrder FloatFacts.

(** C5: with a measured width or height that is not positive, a render
    by either build changes no element, no [<style>] object and no child of
    the head, allocates no class name and leaves the caches as they were
    (absent entries stay absent); where clip-path is supported the whole
    state is unchanged, and otherwise only a warning is written. *)
Theorem render_unmeasurable_noop :
  (∀ (s : Render.State) (e : nat) (o : RenderOptions) (el : Element),
      elems (Render.doc s) !! e = Some el →
      (rect_width (box el) <=? 0)%float = true ∨ (rect_height (box el) <=? 0)%float = true →
      let s' := Esm.renderSquircle s e o in
      same_styling (Render.doc s) (Render.doc s')
      ∧ Render.squircleCounter s' = Render.squircleCounter s
      ∧ (supports_path (Render.doc s) = true → s' = s))
  ∧ (∀ (f : EsmFixed.State) (e : nat) (o : RenderOptions) (el : Element),
      elems (EsmFixed.doc f) !! e = Some el →
      (clientWidth (box el) <=? 0)%float = true ∨ (clientHeight (box el) <=? 0)%float = true →
      let f' := EsmFixed.renderSquircle f e o in
      same_styling (EsmFixed.doc f) (EsmFixed.doc f')
      ∧ EsmFixed.CLASS_MAP f' = EsmFixed.CLASS_MAP f
      ∧ EsmFixed.STYLE_MAP f' = EsmFixed.STYLE_MAP f
      ∧ EsmFixed.SIZE_MAP f' = EsmFixed.SIZE_MAP f
      ∧ EsmFixed.squircleCounter f' = EsmFixed.squircleCounter f
      ∧ (EsmFixed.supportsClipPathPath f = true → f' = f)).
Proof.
  split.
  - intros s e o el Hel Hsize s'. subst s'.
    unfold Esm.renderSquircle, Render.renderSquircle. rewrite Hel.
    assert ((rect_width (box el) <=? 0)%float || (rect_height (box el) <=? 0)%float = true)
      as -> by (destruct Hsize as [-> | ->]; [done | apply orb_true_r]).
    destruct (supports_path (Render.doc s)); simpl; by repeat split.
  - intros f e o el Hel Hsize f'. subst f'.
    unfold EsmFixed.renderSquircle. rewrite Hel.
    assert ((clientWidth (box el) <=? 0)%float || (clientHeight (box el) <=? 0)%float = true)
      as -> by (destruct Hsize as [-> | ->]; [done | apply orb_true_r]).
    destruct (EsmFixed.supportsClipPathPath f); simpl; by repeat split.
Qed.

Lemma render_unmeasurable_noop_witness :
  Esm.renderSquircle (first_build (sized 0 50)) 0 bordered = first_build (sized 0 50)
  ∧ EsmFixed.renderSquircle (second_build (sized 0 50)) 0 bordered
    = second_build (sized 0 50).
Proof.
  split.
  - apply (proj1 render_unmeasurable_noop (first_build (sized 0 50)) 0 bordered (sized 0 50));
      [reflexivity | left; reflexivity | reflexivity].
  - apply (proj2 render_unmeasurable_noop (second_build (sized 0 50)) 0 bordered (sized 0 50));
      [reflexivity | left; reflexivity | reflexivity].
Defined.

Import DomFacts.

(** What a border-mode render leaves in the document: the [<style>]
    element found under the id of the new class name holds the rule text. *)
Lemma border_render_style (b : Build) (s : State) (e : nat) (o : RenderOptions)
    (el : Element) (bw : float) :
  elems (doc s) !! e = Some el →
  (0 <? rect_width (box el))%float = true → (0 <? rect_height (box el))%float = true →
  borderWidth o = Some bw → (0 <? bw)%float = true →
  let width := rect_width (box el) in
  let height := rect_height (box el) in
  let iw := innerWidth width bw in
  let ih := innerHeight height bw in
  let ir := innerRadius (cornerRadius o) bw in
  let s' := renderSquircle b true s e o in
  let className := class_name (S (squircleCounter s)) in
  ∃ h, getElementById (style_id className) (doc s') = Some h
       ∧ styleObjects (doc s') !! h
         = Some {| id := style_id className;
                   textContent := border_css b className bw bw iw ih
                     (Path.getSvgPath (path_indent b) (path_options iw ih ir o)) |}.
Proof.
intros Hel Hw Hh Hbw Hpos width height iw ih ir s' className.
subst s'. unfold renderSquircle. rewrite Hel. cbn [negb].
rewrite (ltb_zero_not_leb _ Hw), (ltb_zero_not_leb _ Hh). cbn [orb].
unfold border_mode. rewrite Hbw, Hpos, (ltb_zero_truthy _ Hpos). cbn [andb].
change (default nan (Some bw)) with bw.
fold width height iw ih ir className.
set (d2 := update_element e _ (update_element e _ (doc s))).
set (css := border_css _ _ _ _ _ _ _).
destruct (getElementById (style_id className) d2) as [h|] eqn:Hfind.
- exists h. cbn [doc].
  assert (getElementById (style_id className) (set_textContent h css d2) = Some h
          ∧ styleObjects (set_textContent h css d2) !! h
            = Some {| id := style_id className; textContent := css |}) as [H1 H2].
  { split; [by rewrite getElementById_set_textContent|].
    rewrite lookup_set_textContent.
    apply getElementById_Some in Hfind as [_ Hid]. unfold has_id in Hid.
    destruct (styleObjects d2 !! h) as [st|]; [|done].
    simpl in Hid. injection Hid as Hid. simpl. by rewrite Hid. }
  destruct (is_static _ e); [|done].
  split; [|exact H2].
  rewrite <- H1. by apply getElementById_ext.
- pose proof (getElementById_created d2 _ Hfind) as Hcr.
  destruct (createStyle d2) as [h d] eqn:Hc.
  cbv zeta in Hcr. cbn [fst snd] in Hcr. destruct Hcr as [H1 H2].
  exists h. cbn [doc].
  set (d3 := appendChild h (set_id h (style_id className) d)) in *.
  assert (getElementById (style_id className) (set_textContent h css d3) = Some h
          ∧ styleObjects (set_textContent h css d3) !! h
            = Some {| id := style_id className; textContent := css |}) as [H3 H4].
  { split; [by rewrite getElementById_set_textContent|].
    rewrite lookup_set_textContent, H2. done. }
  destruct (is_static _ e); [|done].
  split; [|exact H4].
  rewrite <- H3. by apply getElementById_ext.
Qed.

(** C6: a border-mode render computes the inner outline from
    [innerWidth = max(0, width - 2*borderWidth)],
    [innerHeight = max(0, height - 2*borderWidth)] and
    [innerRadius = max(0, cornerRadius - borderWidth)], each maximum being
    one of its two arguments with neither of them above it; radius 10 and
    border 4 on a 100x50 element give (92,42) and 6. *)
Theorem border_render_inner_outline (b : Build) (s : State) (e : nat) (o : RenderOptions)
    (el : Element) (bw : float) :
  elems (doc s) !! e = Some el →
  (0 <? rect_width (box el))%float = true → (0 <? rect_height (box el))%float = true →
  borderWidth o = Some bw → (0 <? bw)%float = true →
  let width := rect_width (box el) in
  let height := rect_height (box el) in
  let iw := Math_max [0; width - 2 * bw]%float in
  let ih := Math_max [0; height - 2 * bw]%float in
  let ir := Math_max [0; cornerRadius o - bw]%float in
  let s' := renderSquircle b true s e o in
  let className := class_name (S (squircleCounter s)) in
  (∃ h, getElementById (style_id className) (doc s') = Some h
        ∧ textContent <$> styleObjects (doc s') !! h
          = Some (border_css b className bw bw iw ih
                    (Path.getSvgPath (path_indent b) (path_options iw ih ir o))))
  ∧ Forall (λ l, Math_max l ∈ l ∧ Forall (λ x, (Math_max l <? x)%float = false) l)
      [[0; width - 2 * bw]; [0; height - 2 * bw]; [0; cornerRadius o - bw]]%float
  ∧ (innerWidth 100 4, innerHeight 50 4) = (92, 42)%float
  ∧ innerRadius 10 4 = 6%float
  ∧ textContent <$> head_styles (doc (Esm.renderSquircle (first_build (sized 100 50)) 0 bordered))
    = [border_css Esm.build (class_name 1) 4 4 92 42
         (Esm.getSvgPath {| Path.width := 92; Path.height := 42; Path.cornerRadius := 6;
                            Path.cornerSmoothing := 1; Path.preserveSmoothing := Some true |})].
Proof.
intros Hel Hw Hh Hbw Hpos width height iw ih ir s' className.
split; [|split; [|split; [|split]]].
- destruct (border_render_style b s e o el bw Hel Hw Hh Hbw Hpos) as (h & H1 & H2).
  exists h. split; [exact H1|].
  fold s' in H2. rewrite H2. simpl.
  subst iw ih ir. unfold innerWidth, innerHeight, innerRadius.
  by rewrite (mul_comm bw 2).
- do 3 (constructor; [apply Math_max_spec; discriminate|]). constructor.
- vm_compute. reflexivity.
- vm_compute. reflexivity.
- vm_compute. reflexivity.
Qed.

Lemma border_render_inner_outline_witness :
  ∃ h, getElementById (style_id (class_name 1))
         (doc (renderSquircle Esm.build true (first_build (sized 100 50)) 0 bordered)) = Some h.
Proof.
destruct (proj1 (border_render_inner_outline Esm.build (first_build (sized 100 50)) 0 bordered
                   (sized 100 50) 4 eq_refl eq_refl eq_refl eq_refl eq_refl))
  as (h & H & _).
by exists h.
Defined.

(** Every border-mode render of the first build that passes the guards
    takes a new counter value and adds its class name to the element. *)
Lemma border_render_allocates (b : Build) (s : State) (e : nat) (o : RenderOptions)
    (el : Element) (bw : float) :
  elems (doc s) !! e = Some el →
  (0 <? rect_width (box el))%float = true → (0 <? rect_height (box el))%float = true →
  borderWidth o = Some bw → (0 <? bw)%float = true →
  let s' := renderSquircle b true s e o in
  squircleCounter s' = S (squircleCounter s)
  ∧ ∃ el', elems (doc s') !! e = Some el'
           ∧ class_name (S (squircleCounter s)) ∈ classList el'.
Proof.
intros Hel Hw Hh Hbw Hpos s'. subst s'. unfold renderSquircle. rewrite Hel. cbn [negb].
rewrite (ltb_zero_not_leb _ Hw), (ltb_zero_not_leb _ Hh). cbn [orb].
unfold border_mode. rewrite Hbw, Hpos, (ltb_zero_truthy _ Hpos). cbn [andb].
set (c := class_name (S (squircleCounter s))).
set (d2 := update_element e _ (update_element e _ (doc s))).
assert (∃ el2, elems d2 !! e = Some el2 ∧ c ∈ classList el2) as (el2 & Hel2 & Hin).
{ subst d2. unfold update_element, set_elements. simpl.
  rewrite !lookup_alter_eq, Hel. simpl. eexists. split; [done|]. simpl.
  unfold classList_add. case_bool_decide; [done|].
  apply elem_of_app. right. by apply list_elem_of_singleton. }
destruct (match getElementById (style_id c) d2 with Some h => _ | None => _ end)
  as [styleElement d3] eqn:Hd3.
assert (elems d3 = elems d2) as Hd3e.
{ destruct (getElementById (style_id c) d2); [by injection Hd3 as _ <-|].
  destruct (createStyle d2) as [h d] eqn:Hc. injection Hd3 as _ <-.
  unfold createStyle in Hc. by injection Hc as _ <-. }
split; [done|]. cbn [doc].
set (d4 := set_textContent _ _ d3).
assert (elems d4 = elems d2) as Hd4e by done.
unfold is_static. rewrite Hd4e, Hel2.
case_bool_decide.
- unfold update_element, set_elements. simpl. rewrite Hd3e, lookup_alter_eq, Hel2.
  simpl. eauto.
- rewrite Hd4e. eauto.
Qed.

(** C3: calling the first build's render twice with the same border
    options on an unchanged 100x50 box gives the same clip region but takes
    two counter values: the element ends with the markers [squircle-1] and
    [squircle-2] and the head with two auxiliary style records. *)
Theorem first_build_reallocates_identifier :
  let s1 := Esm.renderSquircle (first_build (sized 100 50)) 0 bordered in
  let s2 := Esm.renderSquircle s1 0 bordered in
  classList <$> elems (doc s1) !! 0 = Some ["card"; "squircle-1"]
  ∧ classList <$> elems (doc s2) !! 0 = Some ["card"; "squircle-1"; "squircle-2"]
  ∧ id <$> head_styles (doc s2) = ["squircle-style-squircle-1"; "squircle-style-squircle-2"]
  ∧ (squircleCounter s1, squircleCounter s2) = (1, 2)
  ∧ (clipPath ∘ style) <$> elems (doc s2) !! 0 = (clipPath ∘ style) <$> elems (doc s1) !! 0
  ∧ (λ el, length (Auxiliary.auxiliary_styles (doc s2) el)) <$> elems (doc s2) !! 0 = Some 2.
Proof. vm_compute. repeat split. Qed.

End RenderSpec.

(** ** The second build: bookkeeping of the auxiliary style records *)

Module FixedSpec.
Import JS Dom Auxiliary EsmFixed FixedModel DomFacts FloatFacts.

Lemma class_name_inj k k' : Render.class_name k = Render.class_name k' → k = k'.
Proof. unfold Render.class_name. intros H%String.app_inj. by apply pretty_nat_inj in H. Qed.


Lemma prefix_app p s : String.prefix p (p +:+ s) = true.
Proof.
induction p as [|a p IH]; [by destruct s|].
simpl. destruct (ascii_dec a a); [exact IH | done].
Qed.

Lemma class_name_marker k : is_marker (Render.class_name k) = true.
Proof. apply prefix_app. Qed.

Lemma class_name_nonempty k : Render.class_name k ≠ "".
Proof. discriminate. Qed.

(** States that agree on what the invariant reads. *)
Lemma Inv_ext s s' :
  head (doc s') = head (doc s) →
  styleObjects (doc s') = styleObjects (doc s) →
  STYLE_MAP s' = STYLE_MAP s → CLASS_MAP s' = CLASS_MAP s →
  squircleCounter s' = squircleCounter s →
  (∀ e, classList <$> elems (doc s') !! e = classList <$> elems (doc s) !! e) →
  Inv s → Inv s'.
Proof.
intros Hh Ho Hs Hc Hn Hcl [I1 I2 I3 I4 I5 I6 I7 I8].
assert (∀ i h, has_id (doc s') i h ↔ has_id (doc s) i h) as Hid.
{ intros i h. unfold has_id. by rewrite Ho. }
constructor; rewrite ?Hh, ?Hs, ?Hc, ?Hn; try done.
- intros e h Hsh. destruct (I4 e h Hsh) as (c & ? & ?). exists c. by rewrite Hid.
- intros e el c Hel Hin Hm. specialize (Hcl e). rewrite Hel in Hcl.
  destruct (elems (doc s) !! e) as [el0|] eqn:E; [|done].
  simpl in Hcl. injection Hcl as Hcl. rewrite Hcl in Hin. eauto.
- intros e c Hce. destruct (I8 e c Hce) as (el & Hel & Hin).
  specialize (Hcl e). rewrite Hel in Hcl.
  destruct (elems (doc s') !! e) as [el'|]; [|done].
  simpl in Hcl. injection Hcl as Hcl. exists el'. by rewrite Hcl.
Qed.

Lemma classList_set_style e f d x :
  classList <$> elems (update_element e (set_style f) d) !! x = classList <$> elems d !! x.
Proof.
unfold update_element, set_elements. simpl.
destruct (decide (x = e)) as [->|Hne].
- rewrite lookup_alter_eq. by destruct (elems d !! e).
- by rewrite lookup_alter_ne.
Qed.

Lemma classList_set_box e b d x :
  classList <$> elems (update_element e (set_box b) d) !! x = classList <$> elems d !! x.
Proof.
unfold update_element, set_elements. simpl.
destruct (decide (x = e)) as [->|Hne].
- rewrite lookup_alter_eq. by destruct (elems d !! e).
- by rewrite lookup_alter_ne.
Qed.

Lemma Inv_set_style s e f : Inv s → Inv (set_doc (update_element e (set_style f)) s).
Proof. apply Inv_ext; try done. intros x. apply classList_set_style. Qed.

Lemma Inv_set_box s e b : Inv s → Inv (set_doc (update_element e (set_box b)) s).
Proof. apply Inv_ext; try done. intros x. apply classList_set_box. Qed.

Lemma Inv_set_SIZE_MAP s f : Inv s → Inv (set_SIZE_MAP f s).
Proof. by apply Inv_ext. Qed.

Lemma Inv_console_warn s m : Inv s → Inv (set_doc (console_warn m) s).
Proof. by apply Inv_ext. Qed.

Lemma Inv_set_textContent s h t : Inv s → Inv (set_doc (set_textContent h t) s).
Proof.
intros [I1 I2 I3 I4 I5 I6 I7 I8]. constructor; try done.
intros e h' Hs. destruct (I4 e h' Hs) as (c & ? & ?). exists c. split; [done|].
by apply has_id_set_textContent.
Qed.

Lemma filter_all {A} (P : A → Prop) `{!∀ x, Decision (P x)} (l : list A) :
  Forall P l → filter P l = l.
Proof.
induction 1 as [|x l Hx _ IH]; [done|].
rewrite filter_cons_True by done. by rewrite IH.
Qed.

(** Allocating a class name for an element without one. *)
Lemma Inv_allocate s e el :
  Inv s → CLASS_MAP s !! e = None → elems (doc s) !! e = Some el →
  let n := S (squircleCounter s) in
  let c := Render.class_name n in
  Inv (set_doc (update_element e (set_classList (classList_add c)))
         (set_CLASS_MAP <[e := c]> (set_squircleCounter n s))).
Proof.
intros [I1 I2 I3 I4 I5 I6 I7 I8] Hnone Hel n c.
assert (∀ x cx, CLASS_MAP s !! x = Some cx → cx ≠ c) as Hfresh.
{ intros x cx Hx ->. destruct (I5 x _ Hx) as (k & Hk & Hle).
  apply class_name_inj in Hk. subst n. lia. }
assert (c ∉ classList el) as Hnotin.
{ intros Hin. pose proof (I7 e el c Hel Hin (class_name_marker n)). congruence. }
constructor; simpl; try done.
- intros x h Hs. destruct (I4 x h Hs) as (cx & Hcx & Hid).
  exists cx. split; [|done].
  rewrite lookup_insert_ne; [done|]. intros ->. congruence.
- intros x cx [[-> <-]|[Hne Hx]]%lookup_insert_Some.
  + exists n. split; [done|lia].
  + destruct (I5 x cx Hx) as (k & ? & ?). exists k. split; [done|lia].
- intros x x' cx [[-> <-]|[Hne Hx]]%lookup_insert_Some
                 [[-> Heq]|[Hne' Hx']]%lookup_insert_Some; try done.
  + by destruct (Hfresh x' c Hx').
  + subst cx. by destruct (Hfresh x c Hx).
  + eauto.
- intros x elx cx Hx Hin Hm. unfold update_element, set_elements in Hx. simpl in Hx.
  destruct (decide (x = e)) as [->|Hne].
  + rewrite lookup_alter_eq, Hel in Hx. simpl in Hx. injection Hx as <-.
    simpl in Hin. unfold classList_add in Hin.
    rewrite bool_decide_eq_false_2 in Hin by done.
    apply elem_of_app in Hin as [Hin|Hin%list_elem_of_singleton].
    * pose proof (I7 e el cx Hel Hin Hm). congruence.
    * subst cx. by rewrite lookup_insert_eq.
  + rewrite lookup_alter_ne in Hx by done. rewrite lookup_insert_ne by done. eauto.
- intros x cx [[-> <-]|[Hne Hx]]%lookup_insert_Some;
    unfold update_element, set_elements; simpl.
  + rewrite lookup_alter_eq, Hel. simpl. eexists. split; [done|]. simpl.
    unfold classList_add. rewrite bool_decide_eq_false_2 by done.
    apply elem_of_app. right. by apply list_elem_of_singleton.
  + rewrite lookup_alter_ne by done. eauto.
Qed.

(** [upsertBorderStyle] for an element that has a class name. *)
Lemma Inv_upsertBorderStyle s e c p iw ih bw :
  Inv s → CLASS_MAP s !! e = Some c →
  Inv (upsertBorderStyle s e c p iw ih bw).
Proof.
intros HI Hc. unfold upsertBorderStyle.
destruct (STYLE_MAP s !! e) as [h|] eqn:Hs.
- by apply Inv_set_textContent.
- apply Inv_set_textContent.
  destruct HI as [I1 I2 I3 I4 I5 I6 I7 I8].
  unfold createStyle. simpl.
  set (h := fresh (dom (styleObjects (doc s)))).
  assert (styleObjects (doc s) !! h = None) as Hfresh.
  { apply not_elem_of_dom. apply is_fresh. }
  assert (∀ x, STYLE_MAP s !! x ≠ Some h) as Hrange.
  { intros x Hx. destruct (I4 x h Hx) as (cx & _ & Hid).
    unfold has_id in Hid. rewrite Hfresh in Hid. done. }
  assert (h ∉ head (doc s)) as Hhead.
  { intros Hin. apply I2 in Hin as [x Hx]. by destruct (Hrange x). }
  assert (filter (λ x, x ≠ h) (head (doc s)) = head (doc s)) as Hfilter.
  { apply filter_all. apply Forall_forall. intros x Hx ->. done. }
  constructor; simpl; rewrite ?Hfilter; try done.
  + apply NoDup_app. split; [done|]. split; [|apply NoDup_singleton].
    intros x Hx ->%list_elem_of_singleton. done.
  + intros x. rewrite elem_of_app, list_elem_of_singleton, I2. split.
    * intros [[y Hy]| ->].
      -- exists y. rewrite lookup_insert_ne; [done|]. intros ->. congruence.
      -- exists e. by rewrite lookup_insert_eq.
    * intros [y [[-> <-]|[Hne Hy]]%lookup_insert_Some]; [by right|left; eauto].
  + intros x x' hx [[-> <-]|[Hne Hx]]%lookup_insert_Some
                   [[-> Heq]|[Hne' Hx']]%lookup_insert_Some; try done.
    * by destruct (Hrange x').
    * subst hx. by destruct (Hrange x).
    * eauto.
  + intros x hx [[-> <-]|[Hne Hx]]%lookup_insert_Some.
    * exists c. split; [done|]. unfold has_id. simpl.
      by rewrite lookup_alter_eq, lookup_insert_eq.
    * destruct (I4 x hx Hx) as (cx & ? & Hid). exists cx. split; [done|].
      unfold has_id in *. simpl.
      rewrite lookup_alter_ne, lookup_insert_ne; [done| |]; intros ->; by destruct (Hrange x).
Qed.

(** The clean-up of the simple branch, for an element that has a class
    name. *)
Lemma Inv_cleanup s e c :
  Inv s → CLASS_MAP s !! e = Some c →
  let s' := set_doc (update_element e (set_classList (classList_remove c))) s in
  let s'' := match STYLE_MAP s' !! e with
             | Some styleEl => set_doc (remove styleEl) s'
             | None => s'
             end in
  Inv (set_STYLE_MAP (delete e) (set_CLASS_MAP (delete e) s'')).
Proof.
intros [I1 I2 I3 I4 I5 I6 I7 I8] Hc s' s''.
assert (head (doc s'') = filter (λ x, STYLE_MAP s !! e ≠ Some x) (head (doc s))
        ∧ styleObjects (doc s'') = styleObjects (doc s)
        ∧ elems (doc s'') = alter (set_classList (classList_remove c)) e (elems (doc s)))
  as (Hhead & Hobj & Helems).
{ subst s'' s'. simpl. destruct (STYLE_MAP s !! e) as [h|] eqn:Hs; simpl.
  - split; [|done]. apply list_filter_iff. intros x. split; [congruence|].
    intros Hx ->. done.
  - split; [|done]. symmetry. apply filter_all, Forall_forall. done. }
assert (STYLE_MAP s'' = STYLE_MAP s ∧ CLASS_MAP s'' = CLASS_MAP s
        ∧ squircleCounter s'' = squircleCounter s) as (Hsm & Hcm & Hn).
{ subst s'' s'. simpl. by destruct (STYLE_MAP s !! e). }
constructor; simpl; rewrite ?Hhead, ?Hsm, ?Hcm, ?Hn.
- by apply NoDup_filter.
- intros h. rewrite list_elem_of_filter, I2. split.
  + intros [Hne [x Hx]]. exists x. rewrite lookup_delete_ne; [done|]. intros ->. done.
  + intros [x [Hne Hx]%lookup_delete_Some]. split; [|eauto].
    intros He. by destruct Hne; eapply I3.
- intros x x' h [_ Hx]%lookup_delete_Some [_ Hx']%lookup_delete_Some. eauto.
- intros x h [Hne Hx]%lookup_delete_Some.
  destruct (I4 x h Hx) as (cx & ? & Hid). exists cx.
  rewrite lookup_delete_ne by done. split; [done|].
  unfold has_id in *. by rewrite Hobj.
- intros x cx [_ Hx]%lookup_delete_Some. eauto.
- intros x x' cx [_ Hx]%lookup_delete_Some [_ Hx']%lookup_delete_Some. eauto.
- intros x elx cx Hx Hin Hm. rewrite Helems in Hx.
  destruct (decide (x = e)) as [->|Hne].
  + rewrite lookup_alter_eq in Hx.
    destruct (elems (doc s) !! e) as [el|] eqn:Hel; [|done].
    simpl in Hx. injection Hx as <-. simpl in Hin.
    unfold classList_remove in Hin. apply list_elem_of_filter in Hin as [Hne Hin].
    pose proof (I7 e el cx Hel Hin Hm). congruence.
  + rewrite lookup_alter_ne in Hx by done. rewrite lookup_delete_ne by done. eauto.
- intros x cx [Hne Hx]%lookup_delete_Some. rewrite Helems.
  rewrite lookup_alter_ne by done. eauto.
Qed.

Lemma Inv_class_nonempty s e c : Inv s → CLASS_MAP s !! e = Some c → c ≠ "".
Proof.
intros HI Hc. destruct (inv_class s HI e c Hc) as (k & -> & _). apply class_name_nonempty.
Qed.

(** Every render keeps the invariant. *)
Lemma Inv_renderSquircle s e o : Inv s → Inv (renderSquircle s e o).
Proof.
intros HI. unfold renderSquircle.
destruct (elems (doc s) !! e) as [el|] eqn:Hel; [|done].
destruct (supportsClipPathPath s); cbn [negb]; [|by apply Inv_console_warn].
destruct (_ || _); [done|].
set (s0 := set_SIZE_MAP _ s).
assert (Inv s0) as HI0 by by apply Inv_set_SIZE_MAP.
assert (elems (doc s0) !! e = Some el) as Hel0 by done.
clearbody s0.
destruct (0 <? _)%float.
- destruct (CLASS_MAP s0 !! e) as [c|] eqn:Hc.
  + rewrite bool_decide_eq_false_2 by by eapply Inv_class_nonempty.
    apply Inv_upsertBorderStyle.
    * destruct (Render.is_static _ e); repeat apply Inv_set_style; done.
    * by destruct (Render.is_static _ e).
  + apply Inv_upsertBorderStyle.
    * destruct (Render.is_static _ e); repeat apply Inv_set_style;
        by eapply Inv_allocate.
    * destruct (Render.is_static _ e); simpl; by rewrite lookup_insert_eq.
- apply Inv_set_style.
  destruct (CLASS_MAP s0 !! e) as [c|] eqn:Hc; [|done].
  rewrite bool_decide_eq_false_2 by by eapply Inv_class_nonempty.
  by apply Inv_cleanup.
Qed.

Lemma Inv_initial s : initial s → Inv s.
Proof.
intros (Hc & Hs & _ & Hn & Hh & Ho & Hm).
constructor; rewrite ?Hc, ?Hs, ?Hh; try done.
- apply NoDup_nil_2.
- intros h. split; [by intros ?%elem_of_nil|]. by intros [e ?].
- intros e el c Hel Hin Hmk. rewrite (Hm e el c Hel Hin) in Hmk. done.
Qed.

Lemma Inv_reachable s : reachable s → Inv s.
Proof.
induction 1 as [s Hi|s s' _ IH Hstep]; [by apply Inv_initial|].
destruct Hstep; [by apply Inv_renderSquircle | by apply Inv_set_box].
Qed.







Lemma initial_second_build el :
  Forall (λ c, is_marker c = false) (classList el) →
  initial (Examples.second_build el).
Proof.
intros Hm. repeat split.
intros e el' c Hel Hin. simpl in Hel.
apply lookup_singleton_Some in Hel as [_ <-].
rewrite Forall_forall in Hm. by apply Hm.
Qed.




End FixedSpec.

(** ** The initialisers *)

Module InitSpec.
Import JS Dom Initializer InitModel DomFacts FloatOrder FloatFacts.

(** C10: the two builds of [isTransparentColor] disagree on
    ["rgba(255, 0, 0, 0)"]: the pattern of [init.iife.js] asks for backslash
    characters and finds no match, so the function answers [false]; the
    sibling build matches, reads alpha 0 and answers [true].  On a string
    that does carry the backslashes it is the other way round. *)
Theorem isTransparentColor_builds_differ :
  String_match false Init.rgba_pattern "rgba(255, 0, 0, 0)" = None
  ∧ Init.isTransparentColor "rgba(255, 0, 0, 0)" = false
  ∧ InitRobust.isTransparentColor "rgba(255, 0, 0, 0)" = true
  ∧ Init.isTransparentColor
      ("rgba" +:+ String backslash "255, 0, 0, 0" +:+ String backslash "") = true
  ∧ InitRobust.isTransparentColor
      ("rgba" +:+ String backslash "255, 0, 0, 0" +:+ String backslash "") = false.
Proof. vm_compute. repeat split. Qed.

(** C9: the attribute value ["0"] has the numeric value 0, which lies in
    [0,1], but both builds derive the smoothing 1 from it; likewise a radius
    override of ["0"] gives 16.  The options stored for the element show
    it. *)
Theorem zero_smoothing_attribute_becomes_one :
  parseFloat "0" = 0%float
  ∧ ((0 <=? parseFloat "0")%float && (parseFloat "0" <=? 1)%float) = true
  ∧ Init.deriveCornerSmoothing "0" = 1%float
  ∧ InitRobust.deriveCornerSmoothing "0" = 1%float
  ∧ snd <$> elementObservers (Init.initializeElement (loaded (marked "0" "0")) 0) !! 0
    = Some {| Render.cornerRadius := 16; Render.cornerSmoothing := Some 1%float;
              Render.preserveSmoothing := Some true; Render.borderWidth := None |}.
Proof. vm_compute. repeat split. Qed.

(** A number that is at most 1 and not below 1 is 1. *)
Lemma leb_one_eq v : (v <=? 1)%float = true → (v <? 1)%float = false → v = 1%float.
Proof.
intros Hle Hlt. apply leb_key in Hle as (Hn & _ & Hle).
assert (¬ klt (fkey v) (fkey 1)) as Hnlt.
{ intros Hk. assert ((v <? 1)%float = true); [|congruence]. by apply ltb_key. }
apply Prim2SF_inj. apply is_nan_false in Hn.
unfold kle, klt, fkey in *.
change (Prim2SF 1) with (S754_finite false 4503599627370496 (-52)) in *.
destruct (Prim2SF v) as [[]|[]| |[] m e]; simpl in *; try done; try lia.
assert (e = (-52)%Z ∧ m = 4503599627370496%positive) as [-> ->] by lia. done.
Qed.

(** For an attribute whose numeric value lies in (0,1] the derived
    smoothing is that value. *)
Lemma deriveCornerSmoothing_in_range attr :
  let v := parseFloat attr in
  (0 <? v)%float = true → (v <=? 1)%float = true →
  deriveCornerSmoothing attr = v.
Proof.
intros v Hpos Hle. unfold deriveCornerSmoothing. fold v.
unfold or_else. rewrite (ltb_zero_truthy _ Hpos).
assert (Math_min [1%float; v] = v) as ->.
{ destruct (Math_min_spec [1%float; v]) as [Hin Hall]; [done|].
  apply elem_of_cons in Hin as [Heq|Hin].
  - rewrite Heq in Hall. inversion Hall as [|? ? _ Hall']; subst.
    inversion Hall' as [|? ? Hv _]; subst.
    rewrite Heq. symmetry. by apply leb_one_eq.
  - by apply list_elem_of_singleton in Hin. }
destruct (Math_max_spec [0%float; v]) as [Hin Hall]; [done|].
apply elem_of_cons in Hin as [Heq|Hin]; [|by apply list_elem_of_singleton in Hin].
rewrite Heq in Hall. inversion Hall as [|? ? _ Hall']; subst.
inversion Hall' as [|? ? Hv _]; subst. congruence.
Qed.

Section Build.
Variable build : Render.Build.
Variable supported : Doc → bool.
Variable rgba_pattern : regex.
Variable ignoreCase : bool.

(** An element that is already tracked is skipped. *)
Lemma initializeElement_tracked s e :
  is_Some (elementObservers s !! e) →
  initializeElement build supported rgba_pattern ignoreCase s e = s.
Proof.
intros Ht. unfold initializeElement.
destruct (elems (doc s) !! e); [|done]. by rewrite bool_decide_eq_true_2.
Qed.

End Build.

(** A match fails when its continuation fails on every string of a class
    of strings that is closed under taking tails. *)
Lemma rmatch_fails (Q : string → Prop) ic r :
  (∀ c s, Q (String c s) → Q s) →
  ∀ s caps k,
    (∀ s' caps', Q s' → k s' caps' = None) → Q s → rmatch ic r s caps k = None.
Proof.
intros Htail. induction r as [c|cs|r1 IH1 r2 IH2|r1 IH1|r1 IH1|n r1 IH1];
  intros s caps k Hk HQ; cbn [rmatch].
- destruct s as [|x s']; [done|]. destruct (char_eq ic c x); [|done]. eauto.
- destruct s as [|x s']; [done|]. destruct (existsb _ cs); [done|]. eauto.
- apply IH1; [|done]. intros s' caps' HQ'. by apply IH2.
- rewrite IH1 by done. by apply Hk.
- generalize (S (String.length s)). intros fuel. revert s caps HQ.
  induction fuel as [|fuel IHf]; intros s caps HQ; [reflexivity|].
  simpl. apply IH1; [|done]. intros s' caps' HQ'.
  destruct (String.length s' <? String.length s)%nat; rewrite ?IHf by done; by apply Hk.
- apply IH1; [|done]. intros s' caps' HQ'. by apply Hk.
Qed.

Lemma rmatch_Cat ic r1 r2 s caps k :
  rmatch ic (Cat r1 r2) s caps k
  = rmatch ic r1 s caps (λ s' caps', rmatch ic r2 s' caps' k).
Proof. reflexivity. Qed.

(** The pattern of [init.iife.js] finds nothing in a string without a
    backslash. *)
Lemma init_pattern_needs_backslash s :
  includes backslash s = false → String_match false Init.rgba_pattern s = None.
Proof.
set (Q := λ s, includes backslash s = false).
assert (∀ c s, Q (String c s) → Q s) as Htail.
{ unfold Q. simpl. by intros c t [_ ?]%orb_false_iff. }
assert (∀ t caps k, Q t → rmatch false Init.rgba_pattern t caps k = None) as Hfail.
{ intros t caps k HQ. unfold Init.rgba_pattern, cat_all. cbn [foldr].
  rewrite rmatch_Cat. apply (rmatch_fails Q); [done| |done]. intros s1 c1 HQ1.
  rewrite rmatch_Cat. apply (rmatch_fails Q); [done| |done]. intros s2 c2 HQ2.
  rewrite rmatch_Cat. apply (rmatch_fails Q); [done| |done]. intros s3 c3 HQ3.
  rewrite rmatch_Cat. apply (rmatch_fails Q); [done| |done]. intros s4 c4 HQ4.
  rewrite rmatch_Cat. destruct s4 as [|x s5]; [done|]. cbn [rmatch].
  unfold Q in HQ4. simpl in HQ4. apply orb_false_iff in HQ4 as [Hx _].
  unfold char_eq. rewrite Ascii.eqb_sym in Hx. by rewrite Hx. }
intros HQ. fold (Q s) in HQ.
induction s as [|c s IH]; cbn [String_match].
- by rewrite Hfail.
- rewrite Hfail by done. apply IH. by eapply Htail.
Qed.

(** X16: on a string without a backslash, [isTransparentColor] of
    [init.iife.js] answers [true] for the three literals only. *)
Lemma init_isTransparentColor_literals color :
  includes backslash color = false →
  Init.isTransparentColor color = true
  ↔ color = "" ∨ color = "transparent" ∨ color = "rgba(0, 0, 0, 0)".
Proof.
intros Hb. unfold Init.isTransparentColor, isTransparentColor.
rewrite (init_pattern_needs_backslash _ Hb).
repeat case_bool_decide; simpl; split; intros Hc; try done; tauto.
Qed.

Lemma init_isTransparentColor_literals_witness :
  Init.isTransparentColor "rgb(0, 128, 0)" = false.
Proof.
destruct (Init.isTransparentColor "rgb(0, 128, 0)") eqn:E; [|reflexivity].
apply (init_isTransparentColor_literals "rgb(0, 128, 0)" eq_refl) in E.
destruct E as [E|[E|E]]; discriminate E.
Defined.

End InitSpec.

(** ** [disconnect] in [init.iife.js] *)

Module DisconnectSpec.
Import JS Dom Auxiliary Initializer InitModel DomFacts FloatOrder FloatFacts.

Lemma unique_ids_ext d d' :
  head d' = head d → (∀ i h, has_id d' i h ↔ has_id d i h) →
  unique_ids d → unique_ids d'.
Proof.
intros Hh Hid [Hnd Hu]. split; rewrite Hh; [done|].
intros h1 h2 i ? ? ?%Hid ?%Hid. eauto.
Qed.

Lemma unique_ids_update_element d e f : unique_ids d → unique_ids (update_element e f d).
Proof. by apply unique_ids_ext. Qed.

Lemma unique_ids_console_warn d m : unique_ids d → unique_ids (console_warn m d).
Proof. by apply unique_ids_ext. Qed.

Lemma unique_ids_set_textContent d h t : unique_ids d → unique_ids (set_textContent h t d).
Proof. apply unique_ids_ext; [done|]. intros i x. apply has_id_set_textContent. Qed.

Lemma unique_ids_remove d h : unique_ids d → unique_ids (remove h d).
Proof.
intros [Hnd Hu]. split; simpl.
- by apply NoDup_filter.
- intros h1 h2 i [_ ?]%list_elem_of_filter [_ ?]%list_elem_of_filter. by apply Hu.
Qed.

Lemma unique_ids_created d i :
  unique_ids d → getElementById i d = None →
  unique_ids (appendChild (createStyle d).1 (set_id (createStyle d).1 i (createStyle d).2)).
Proof.
intros [Hnd Hu] Hnone. unfold createStyle. simpl.
set (h := fresh (dom (styleObjects d))).
set (d' := appendChild h _).
assert (∀ j x, x ≠ h → has_id d' j x ↔ has_id d j x) as Hother.
{ intros j x Hx. unfold has_id. simpl. by rewrite lookup_alter_ne, lookup_insert_ne. }
assert (∀ j, has_id d' j h → j = i) as Hh.
{ intros j. unfold has_id. simpl. rewrite lookup_alter_eq, lookup_insert_eq. simpl. congruence. }
apply getElementById_None in Hnone. rewrite Forall_forall in Hnone.
split; simpl.
- apply NoDup_app. split; [by apply NoDup_filter|]. split; [|apply NoDup_singleton].
  intros x [Hx _]%list_elem_of_filter ->%list_elem_of_singleton. done.
- intros h1 h2 j.
  rewrite !elem_of_app, !list_elem_of_filter, !list_elem_of_singleton.
  intros [[Hne1 Hin1]| ->] [[Hne2 Hin2]| ->] H1 H2; [| | |done].
  + apply (Hu h1 h2 j); [done..| |]; by apply Hother.
  + apply Hh in H2 as ->. apply Hother in H1; [|done]. by destruct (Hnone h1).
  + apply Hh in H1 as ->. apply Hother in H2; [|done]. by destruct (Hnone h2).
Qed.

(** A render of the first build keeps the ids of the attached [<style>]
    elements distinct. *)
Lemma unique_ids_render b sup s e o :
  unique_ids (Render.doc s) → unique_ids (Render.doc (Render.renderSquircle b sup s e o)).
Proof.
intros HU. unfold Render.renderSquircle.
destruct (elems (Render.doc s) !! e) as [el|]; [|done].
destruct sup; cbn [negb]; [|by apply unique_ids_console_warn].
destruct (_ || _); [done|].
destruct (Render.border_mode o); [|by apply unique_ids_update_element].
set (c := Render.class_name _).
set (d2 := update_element e _ (update_element e _ (Render.doc s))).
assert (unique_ids d2) as HU2 by by do 2 apply unique_ids_update_element.
clearbody d2.
destruct (getElementById (Render.style_id c) d2) as [h|] eqn:Hfind.
- cbn [Render.doc].
  destruct (Render.is_static _ e);
    [apply unique_ids_update_element|]; by apply unique_ids_set_textContent.
- pose proof (unique_ids_created d2 _ HU2 Hfind) as HU3.
  destruct (createStyle d2) as [h d]. cbn [fst snd] in HU3. cbn [Render.doc].
  destruct (Render.is_static _ e);
    [apply unique_ids_update_element|]; by apply unique_ids_set_textContent.
Qed.

Section Build.
Variable build : Render.Build.
Variable supported : Doc → bool.
Variable rgba_pattern : regex.
Variable ignoreCase : bool.

Lemma unique_ids_renderSquircle s e o :
  unique_ids (doc s) → unique_ids (doc (renderSquircle build supported s e o)).
Proof. apply unique_ids_render. Qed.

Lemma unique_ids_set_doc_update s e f :
  unique_ids (doc s) → unique_ids (doc (set_doc (update_element e f) s)).
Proof. apply unique_ids_update_element. Qed.

Lemma unique_ids_initializeElement s e :
  unique_ids (doc s) →
  unique_ids (doc (initializeElement build supported rgba_pattern ignoreCase s e)).
Proof.
intros HU. unfold initializeElement.
destruct (elems (doc s) !! e) as [el|]; [|done].
case_bool_decide; [done|].
destruct (attributes el !! "data-corner-smoothing") as [attr|]; [|done].
case_bool_decide; [done|].
destruct (hasSolidBorder _).
- case_bool_decide; apply unique_ids_render; by repeat apply unique_ids_update_element.
- by apply unique_ids_render.
Qed.

Lemma unique_ids_scan s :
  unique_ids (doc s) → unique_ids (doc (scan build supported rgba_pattern ignoreCase s)).
Proof.
unfold scan. generalize (querySelectorAll (doc s)). intros l. revert s.
induction l as [|e l IH]; intros s HU; [done|].
simpl. by apply IH, unique_ids_initializeElement.
Qed.

Lemma unique_ids_resize_callback s ob x :
  unique_ids (doc s) → unique_ids (doc (resize_callback build supported s ob x)).
Proof.
intros HU. unfold resize_callback.
destruct (observers s !! ob) as [o|]; [|done].
destruct (_ && _); [|done]. by apply unique_ids_render.
Qed.

End Build.

Lemma unique_ids_disconnect_class e d c :
  unique_ids d → unique_ids (disconnect_class e d c).
Proof.
intros HU. unfold disconnect_class. destruct (startsWith c _); [|done].
destruct (getElementById _ _); [apply unique_ids_remove|]; by apply unique_ids_update_element.
Qed.

Lemma unique_ids_fold e cs : ∀ d,
  unique_ids d → unique_ids (foldl (disconnect_class e) d cs).
Proof.
induction cs as [|c cs IH]; intros d HU; [done|].
simpl. by apply IH, unique_ids_disconnect_class.
Qed.

Lemma unique_ids_disconnect s e : unique_ids (doc s) → unique_ids (doc (disconnect s e)).
Proof.
intros HU. unfold disconnect.
destruct (elems (doc s) !! e) as [el|]; [|done].
destruct (elementObservers s !! e) as [data|]; [|done].
apply unique_ids_fold. by do 2 apply unique_ids_update_element.
Qed.

Lemma unique_ids_reachable s : reachable s → unique_ids (doc s).
Proof.
induction 1 as [s (_ & _ & HU)|s s' _ IH Hstep]; [done|].
destruct Hstep.
- by apply unique_ids_scan.
- by apply unique_ids_initializeElement.
- by apply unique_ids_update_element.
- by apply unique_ids_resize_callback.
- by apply unique_ids_disconnect.
Qed.

(** *** [disconnect] *)

Lemma fold_styleObjects e cs : ∀ d,
  styleObjects (foldl (disconnect_class e) d cs) = styleObjects d.
Proof.
induction cs as [|c cs IH]; intros d; [done|].
simpl. rewrite IH. unfold disconnect_class.
destruct (startsWith c _); [|done]. by destruct (getElementById _ _).
Qed.

Lemma fold_head e cs : ∀ d h,
  h ∈ head (foldl (disconnect_class e) d cs) → h ∈ head d.
Proof.
induction cs as [|c cs IH]; intros d h; [done|].
simpl. intros Hin%IH. unfold disconnect_class in Hin.
destruct (startsWith c _); [|done].
destruct (getElementById _ _); [|done].
simpl in Hin. by apply list_elem_of_filter in Hin as [_ ?].
Qed.

Lemma getElementById_None_mono d d' i :
  getElementById i d = None → styleObjects d' = styleObjects d →
  (∀ h, h ∈ head d' → h ∈ head d) →
  getElementById i d' = None.
Proof.
rewrite !getElementById_None, !Forall_forall. intros Hn Ho Hh h Hin.
unfold has_id. rewrite Ho. by apply Hn, Hh.
Qed.

Lemma getElementById_remove d i h :
  unique_ids d → getElementById i d = Some h → getElementById i (remove h d) = None.
Proof.
intros [_ Hu] [Hin Hid]%getElementById_Some.
apply getElementById_None, Forall_forall. simpl.
intros x [Hne Hx]%list_elem_of_filter Hidx. apply Hne. by apply (Hu x h i).
Qed.

(** After the loop no attached [<style>] carries the style id of a marker
    that was in the list. *)
Lemma fold_no_style e cs : ∀ d c,
  unique_ids d → c ∈ cs → is_marker c = true →
  getElementById (Render.style_id c) (foldl (disconnect_class e) d cs) = None.
Proof.
induction cs as [|c0 cs IH]; intros d c HU Hin Hm; [by apply elem_of_nil in Hin|].
simpl. apply elem_of_cons in Hin as [->|Hin].
- eapply getElementById_None_mono; [|apply fold_styleObjects|apply fold_head].
  unfold disconnect_class. unfold is_marker in Hm. rewrite Hm.
  set (d1 := update_element e _ d).
  assert (unique_ids d1) as HU1 by by apply unique_ids_update_element.
  fold (Render.style_id c0).
  destruct (getElementById (Render.style_id c0) d1) as [h|] eqn:Hf; [|done].
  by apply getElementById_remove.
- apply IH; [|done..]. by apply unique_ids_disconnect_class.
Qed.

(** What the loop leaves of the element: everything but its class list,
    from which the markers in the list are gone. *)
Lemma fold_element e cs : ∀ d el0,
  elems d !! e = Some el0 →
  ∃ el', elems (foldl (disconnect_class e) d cs) !! e = Some el'
         ∧ style el' = style el0
         ∧ ∀ c, c ∈ classList el' → c ∈ classList el0 ∧ (c ∈ cs → is_marker c = false).
Proof.
induction cs as [|c0 cs IH]; intros d el0 Hel.
- exists el0. repeat split; [done..|]. by intros ?%elem_of_nil.
- simpl. unfold disconnect_class at 2.
  destruct (startsWith c0 "squircle-") eqn:Hm.
  + set (el1 := set_classList (classList_remove c0) el0).
    assert (elems (match getElementById ("squircle-style-" +:+ c0)
                           (update_element e (set_classList (classList_remove c0)) d) with
                   | Some styleElement =>
                       remove styleElement
                         (update_element e (set_classList (classList_remove c0)) d)
                   | None => update_element e (set_classList (classList_remove c0)) d
                   end) !! e = Some el1) as Hel1.
    { destruct (getElementById _ _); simpl; by rewrite lookup_alter_eq, Hel. }
    destruct (IH _ el1 Hel1) as (el' & Hel' & Hst & Hcl).
    exists el'. split; [done|]. split; [done|].
    intros c Hc. destruct (Hcl c Hc) as [Hin1 Hnm].
    simpl in Hin1. unfold classList_remove in Hin1.
    apply list_elem_of_filter in Hin1 as [Hne Hin0].
    split; [done|]. intros [->|?]%elem_of_cons; [done|auto].
  + destruct (IH d el0 Hel) as (el' & Hel' & Hst & Hcl).
    exists el'. split; [done|]. split; [done|].
    intros c Hc. destruct (Hcl c Hc) as [Hin0 Hnm].
    split; [done|]. intros [->|?]%elem_of_cons; [done|auto].
Qed.

(** C8: in every state [init.iife.js] can reach, [disconnect] on a
    tracked element forgets the element in [elementObservers], cancels its
    observer (whose callback no longer renders), empties the clip region,
    removes the inner-background custom property, removes every marker class
    and, for each marker the element carried, leaves no attached [<style>]
    under its style id; on an element that is not tracked it changes
    nothing. *)
Theorem disconnect_cleans_up (s : State) (e : nat) (el : Element) :
  reachable s → elems (doc s) !! e = Some el →
  let s' := Init.disconnect s e in
  (∀ observer options,
      elementObservers s !! e = Some (observer, options) →
      elementObservers s' !! e = None
      ∧ (∀ o, observers s' !! observer = Some o → observing o = false)
      ∧ (∀ x, Init.resize_callback s' observer x = s')
      ∧ ∃ el', elems (doc s') !! e = Some el'
               ∧ clipPath (style el') = ""
               ∧ properties (style el') !! "--squircle-inner-bg" = None
               ∧ Forall (λ c, is_marker c = false) (classList el')
               ∧ Forall (λ c, is_marker c = true →
                              getElementById (Render.style_id c) (doc s') = None)
                   (classList el))
  ∧ (elementObservers s !! e = None → s' = s).
Proof.
intros Hr Hel s'. subst s'. unfold Init.disconnect, disconnect. rewrite Hel.
split; [|by intros ->].
intros ob opts Hobs. rewrite Hobs. cbn [fst].
set (d4 := update_element e (set_style (with_properties (delete "--squircle-inner-bg")))
             (update_element e (set_style (with_clipPath "")) (doc s))).
set (sf := set_doc _ _).
assert (elementObservers sf = delete e (elementObservers s)) as Heo by done.
assert (observers sf
        = alter (λ o, {| target := target o; options := options o; observing := false |})
            ob (observers s)) as Hos by done.
assert (doc sf = foldl (disconnect_class e) d4 (classList el)) as Hdoc by done.
assert (unique_ids d4) as HU
  by (do 2 apply unique_ids_update_element; by apply unique_ids_reachable).
set (el4 := set_style (with_properties (delete "--squircle-inner-bg"))
              (set_style (with_clipPath "") el)).
assert (elems d4 !! e = Some el4) as Hel4.
{ subst d4. unfold update_element, set_elements. simpl.
  by rewrite !lookup_alter_eq, Hel. }
clearbody sf d4.
split; [rewrite Heo; apply lookup_delete_eq|].
split.
{ intros o Ho. rewrite Hos, lookup_alter_eq in Ho.
  destruct (observers s !! ob); [|done]. simpl in Ho. by injection Ho as <-. }
split.
{ intros x. unfold Init.resize_callback, resize_callback.
  rewrite Hos, lookup_alter_eq. by destruct (observers s !! ob). }
rewrite Hdoc.
destruct (fold_element e (classList el) d4 el4 Hel4) as (el' & Hel' & Hst & Hcl).
exists el'. split; [exact Hel'|].
rewrite Hst. split; [done|]. split; [simpl; apply lookup_delete_eq|]. split.
- apply Forall_forall. intros c Hc. destruct (Hcl c Hc) as [Hin Hm]. by apply Hm.
- apply Forall_forall. intros c Hc Hm. by apply fold_no_style.
Qed.

Lemma disconnect_cleans_up_witness :
  let s := Init.initializeElement (loaded (framed "0.6" "10")) 0 in
  reachable s ∧ elementObservers (Init.disconnect s 0) !! 0 = None.
Proof.
intros s.
assert (reachable s) as Hr.
{ eapply reachable_step; [|apply step_initialize].
  apply reachable_initial. repeat split; [apply NoDup_nil_2|].
  by intros h1 h2 i ?%elem_of_nil. }
split; [exact Hr|].
destruct (elems (doc s) !! 0) as [el|] eqn:Hel; [|vm_compute in Hel; discriminate].
destruct (elementObservers s !! 0) as [[observer options]|] eqn:Hobs;
  [|vm_compute in Hobs; discriminate].
exact (proj1 (proj1 (disconnect_cleans_up s 0 el Hr Hel) observer options Hobs)).
Defined.

End DisconnectSpec.

(** ** The second build: rendering twice *)

Module IdempotenceSpec.
Import JS Dom Auxiliary EsmFixed FixedModel DomFacts FloatFacts.

Lemma State_eq s s' :
  doc s = doc s' → supportsClipPathPath s = supportsClipPathPath s' →
  CLASS_MAP s = CLASS_MAP s' → STYLE_MAP s = STYLE_MAP s' → SIZE_MAP s = SIZE_MAP s' →
  squircleCounter s = squircleCounter s' → s = s'.
Proof. destruct s, s'. simpl. by intros -> -> -> -> -> ->. Qed.

Lemma Doc_eq d d' :
  elems d = elems d' → styleObjects d = styleObjects d' → head d = head d' →
  supports_path d = supports_path d' → console d = console d' → d = d'.
Proof. destruct d, d'. simpl. by intros -> -> -> -> ->. Qed.

Lemma update_element_id e f d :
  (∀ el, elems d !! e = Some el → f el = el) → update_element e f d = d.
Proof.
intros Hf. apply Doc_eq; try done. simpl.
apply map_eq. intros x. destruct (decide (x = e)) as [->|Hne].
- rewrite lookup_alter_eq. destruct (elems d !! e) as [el|] eqn:E; [|done].
  simpl. by rewrite Hf.
- by rewrite lookup_alter_ne.
Qed.

Lemma set_textContent_id h t d :
  (∀ st, styleObjects d !! h = Some st → textContent st = t) → set_textContent h t d = d.
Proof.
intros Hf. apply Doc_eq; try done. simpl.
apply map_eq. intros x. destruct (decide (x = h)) as [->|Hne].
- rewrite lookup_alter_eq. destruct (styleObjects d !! h) as [st|] eqn:E; [|done].
  simpl. rewrite <- (Hf st eq_refl). by destruct st.
- by rewrite lookup_alter_ne.
Qed.

Lemma settled_border_render s e o el :
  elems (doc s) !! e = Some el → settled_border s e o el →
  supportsClipPathPath s = true →
  (0 <? default 0%float (Render.borderWidth o))%float = true →
  renderSquircle s e o = s.
Proof.
intros Hel (Hsize & Hclip & Hpos & c & h & Hc & Hne & Hs & Htext) Hsup Hbw.
unfold renderSquircle. rewrite Hel, Hsup. cbn [negb].
destruct (_ || _); [done|]. rewrite Hbw.
cbn [CLASS_MAP set_SIZE_MAP]. rewrite Hc, bool_decide_eq_false_2 by done.
set (s0 := set_SIZE_MAP _ s).
assert (s0 = s) as ->.
{ apply State_eq; try done. simpl. by apply insert_id. }
set (s2 := set_doc _ s).
assert (s2 = s) as ->.
{ apply State_eq; try done. simpl. apply update_element_id.
  intros el0 Hel0. assert (el0 = el) as -> by congruence.
  destruct el as [b cl [cp ps bg pr] cs attrs]. simpl in *. by rewrite Hclip. }
unfold Render.is_static. rewrite Hel, bool_decide_eq_false_2 by done.
unfold upsertBorderStyle. rewrite Hs.
apply State_eq; try done. simpl. by apply set_textContent_id.
Qed.

Lemma lookup_update_element d e f el :
  elems d !! e = Some el → elems (update_element e f d) !! e = Some (f el).
Proof. intros H. simpl. by rewrite lookup_alter_eq, H. Qed.

Lemma computed_position_relative el :
  computed_position (set_style (with_position "relative") el) ≠ "static".
Proof. unfold computed_position. simpl. done. Qed.

Lemma border_render_settles s e o el :
  elems (doc s) !! e = Some el → supportsClipPathPath s = true →
  (clientWidth (box el) <=? 0)%float || (clientHeight (box el) <=? 0)%float = false →
  (0 <? default 0%float (Render.borderWidth o))%float = true →
  ∃ el', elems (doc (renderSquircle s e o)) !! e = Some el'
         ∧ box el' = box el
         ∧ settled_border (renderSquircle s e o) e o el'.
Proof.
intros Hel Hsup Hguard Hbw. unfold renderSquircle.
rewrite Hel, Hsup, Hguard, Hbw. cbn [negb].
set (w := clientWidth (box el)). set (h := clientHeight (box el)).
set (bw := default 0%float (Render.borderWidth o)).
set (s0 := set_SIZE_MAP _ s).
destruct (match CLASS_MAP s0 !! e with Some c => _ | None => _ end) as [c s1] eqn:Hcs.
assert (∃ el1, elems (doc s1) !! e = Some el1 ∧ box el1 = box el ∧ style el1 = style el
               ∧ computed el1 = computed el) as (el1 & Hel1 & Hb1 & Hst1 & Hcp1).
{ destruct (CLASS_MAP s0 !! e) as [c0|]; [case_bool_decide|];
    injection Hcs as <- <-; simpl; rewrite ?lookup_alter_eq, Hel; simpl; eauto. }
assert (CLASS_MAP s1 !! e = Some c ∧ c ≠ "" ∧ SIZE_MAP s1 !! e = Some (w, h))
  as (Hc1 & Hne1 & Hsz1).
{ destruct (CLASS_MAP s0 !! e) as [c0|] eqn:Hc0; [case_bool_decide|];
    injection Hcs as <- <-; simpl; rewrite ?lookup_insert_eq; by repeat split. }
clear Hcs. clearbody s0.
set (v := path_value _).
set (s2 := set_doc (update_element e (set_style (with_clipPath v))) s1).
set (el2 := set_style (with_clipPath v) el1).
assert (elems (doc s2) !! e = Some el2) as Hel2
  by by apply lookup_update_element.
set (s3 := if Render.is_static (doc s2) e then _ else s2).
assert (∃ el3, elems (doc s3) !! e = Some el3 ∧ box el3 = box el
               ∧ clipPath (style el3) = v ∧ computed_position el3 ≠ "static")
  as (el3 & Hel3 & Hb3 & Hcl3 & Hpos3).
{ subst s3. unfold Render.is_static. rewrite Hel2. case_bool_decide as Hst.
  - exists (set_style (with_position "relative") el2).
    split; [by apply lookup_update_element|]. split; [done|]. split; [done|].
    apply computed_position_relative.
  - exists el2. by repeat split. }
assert (CLASS_MAP s3 = CLASS_MAP s1 ∧ SIZE_MAP s3 = SIZE_MAP s1) as [Hc3 Hsz3]
  by (subst s3; by destruct (Render.is_static _ _)).
clearbody s3. rewrite <- Hc3 in Hc1. rewrite <- Hsz3 in Hsz1.
clear Hel2 Hel1 Hc3 Hsz3.
unfold upsertBorderStyle.
destruct (STYLE_MAP s3 !! e) as [h0|] eqn:Hs3.
- exists el3. split; [done|]. split; [done|].
  unfold settled_border. rewrite Hb3. fold w h bw. split; [done|]. split; [done|].
  split; [done|]. exists c, h0. repeat split; [done..|].
  intros st. simpl. rewrite lookup_alter_eq.
  destruct (styleObjects (doc s3) !! h0); [|done]. simpl. by intros [= <-].
- unfold createStyle. simpl.
  exists el3. split; [done|]. split; [done|].
  unfold settled_border. rewrite Hb3. fold w h bw. split; [done|]. split; [done|].
  split; [done|]. eexists c, _. split; [done|]. split; [done|].
  split; [simpl; apply lookup_insert_eq|].
  intros st. simpl. rewrite !lookup_alter_eq, lookup_insert_eq. simpl. by intros [= <-].
Qed.

Lemma settled_simple_render s e o el :
  elems (doc s) !! e = Some el → settled_simple s e o el →
  supportsClipPathPath s = true →
  (0 <? default 0%float (Render.borderWidth o))%float = false →
  renderSquircle s e o = s.
Proof.
intros Hel (Hsize & Hclip & Hc) Hsup Hbw.
unfold renderSquircle. rewrite Hel, Hsup. cbn [negb].
destruct (_ || _); [done|]. rewrite Hbw.
set (s0 := set_SIZE_MAP _ s).
assert (s0 = s) as ->.
{ apply State_eq; try done. simpl. by apply insert_id. }
destruct Hc as [Hc|Hc]; rewrite Hc; [|rewrite bool_decide_eq_true_2 by done].
all: apply State_eq; try done; simpl; apply update_element_id;
  intros el0 Hel0; assert (el0 = el) as -> by congruence;
  destruct el as [b cl [cp ps bg pr] cs attrs]; simpl in *; by rewrite Hclip.
Qed.


Lemma simple_render_settles s e o el :
  elems (doc s) !! e = Some el → supportsClipPathPath s = true →
  (clientWidth (box el) <=? 0)%float || (clientHeight (box el) <=? 0)%float = false →
  (0 <? default 0%float (Render.borderWidth o))%float = false →
  ∃ el', elems (doc (renderSquircle s e o)) !! e = Some el'
         ∧ box el' = box el
         ∧ settled_simple (renderSquircle s e o) e o el'.
Proof.
intros Hel Hsup Hguard Hbw. unfold renderSquircle.
rewrite Hel, Hsup, Hguard, Hbw. cbn [negb].
set (w := clientWidth (box el)). set (h := clientHeight (box el)).
set (s0 := set_SIZE_MAP _ s).
set (s1 := match CLASS_MAP s0 !! e with Some c => _ | None => _ end).
assert (∃ el1, elems (doc s1) !! e = Some el1 ∧ box el1 = box el) as (el1 & Hel1 & Hb1).
{ subst s1. destruct (CLASS_MAP s0 !! e) as [c0|]; [case_bool_decide|]; [by eauto| |by eauto].
  destruct (STYLE_MAP _ !! e); simpl; rewrite lookup_alter_eq, Hel; simpl; eauto. }
assert (SIZE_MAP s1 !! e = Some (w, h)
        ∧ (CLASS_MAP s1 !! e = None ∨ CLASS_MAP s1 !! e = Some "")) as [Hsz1 Hc1].
{ subst s1. destruct (CLASS_MAP s0 !! e) as [c0|] eqn:Hc0; [case_bool_decide|].
  - subst c0. split; [apply lookup_insert_eq|]. by right.
  - split.
    + destruct (STYLE_MAP _ !! e); simpl; apply lookup_insert_eq.
    + left. destruct (STYLE_MAP _ !! e); simpl; apply lookup_delete_eq.
  - split; [apply lookup_insert_eq|]. by left. }
clearbody s1 s0.
eexists. split; [by apply lookup_update_element|]. split; [done|].
unfold settled_simple. cbn [box set_style style with_clipPath clipPath].
rewrite Hb1. by repeat split.
Qed.

Lemma render_supports s e o :
  supportsClipPathPath (renderSquircle s e o) = supportsClipPathPath s.
Proof.
unfold renderSquircle.
destruct (elems (doc s) !! e) as [el|]; [|done].
destruct (supportsClipPathPath s) eqn:Hs; cbn [negb]; [|done].
destruct (_ || _); [done|].
destruct (0 <? _)%float.
- unfold upsertBorderStyle.
  destruct (CLASS_MAP _ !! e) as [c|]; [case_bool_decide|];
    destruct (Render.is_static _ e); destruct (STYLE_MAP _ !! e); done.
- destruct (CLASS_MAP _ !! e) as [c|]; [case_bool_decide|]; try done.
  by destruct (STYLE_MAP _ !! e).
Qed.

(** X6: where clip-path is supported, a render of the second build
    followed by the same render on the unchanged box changes nothing: same
    clip region, same class name, same [<style>] and same text. *)
Lemma render_idempotent s e o :
  supportsClipPathPath s = true →
  renderSquircle (renderSquircle s e o) e o = renderSquircle s e o.
Proof.
intros Hsup.
destruct (elems (doc s) !! e) as [el|] eqn:Hel.
2:{ assert (renderSquircle s e o = s) as Heq by (unfold renderSquircle; by rewrite Hel).
    by rewrite !Heq. }
destruct ((clientWidth (box el) <=? 0)%float || (clientHeight (box el) <=? 0)%float)
  eqn:Hguard.
{ assert (renderSquircle s e o = s) as Heq
    by (unfold renderSquircle; by rewrite Hel, Hsup, Hguard).
  by rewrite !Heq. }
pose proof (render_supports s e o) as Hsup'. rewrite Hsup in Hsup'.
destruct (0 <? default 0%float (Render.borderWidth o))%float eqn:Hbw.
- destruct (border_render_settles s e o el Hel Hsup Hguard Hbw) as (el' & Hel' & Hb & Hset).
  by eapply settled_border_render.
- destruct (simple_render_settles s e o el Hel Hsup Hguard Hbw) as (el' & Hel' & Hb & Hset).
  by eapply settled_simple_render.
Qed.

Lemma render_idempotent_witness :
  let s := renderSquircle (Examples.second_build (Examples.sized 100 50)) 0 Examples.bordered in
  renderSquircle s 0 Examples.bordered = s.
Proof.
intros s.
exact (render_idempotent (Examples.second_build (Examples.sized 100 50)) 0 Examples.bordered
         eq_refl).
Defined.

End IdempotenceSpec.

(** * Further properties of the code *)

(** ** The path generator on unusable numbers *)

Module PathFacts.
Import JS Path FloatOrder FloatFacts PathSpec.

Lemma SF_nan x : Prim2SF x = S754_nan → x = nan.
Proof. intros H. apply Prim2SF_inj. by rewrite H. Qed.

Lemma mul_nan_r x : (x * nan)%float = nan.
Proof.
apply SF_nan. rewrite mul_spec. change (Prim2SF nan) with S754_nan.
by destruct (Prim2SF x) as [[]|[]| |[] m e].
Qed.

Lemma mul_nan_l x : (nan * x)%float = nan.
Proof. apply SF_nan. rewrite mul_spec. change (Prim2SF nan) with S754_nan. done. Qed.

Lemma sub_nan_r x : (x - nan)%float = nan.
Proof.
apply SF_nan. rewrite sub_spec. change (Prim2SF nan) with S754_nan.
by destruct (Prim2SF x) as [[]|[]| |[] m e].
Qed.

Lemma div_nan_l x : (nan / x)%float = nan.
Proof. apply SF_nan. rewrite div_spec. change (Prim2SF nan) with S754_nan. done. Qed.

Lemma Math_min_nan l x : x ∈ l → is_nan x = true → Math_min l = nan.
Proof.
intros Hin Hn. unfold Math_min.
assert (existsb is_nan l = true) as ->; [|done].
apply existsb_exists. exists x. split; [by apply list_elem_of_In | done].
Qed.

(** X1: [getSvgPath] validates nothing: a NaN among the radius, the width and
    the height makes the effective radius NaN, and a NaN radius or smoothing
    makes the control offset NaN, so the path starts with [M NaN,0]; this
    is what the first build of [renderSquircle] hands over when
    [cornerSmoothing] is left out, where the second build takes 1. *)
Theorem getSvgPath_propagates_nan (indent : string) (o : options) :
  (is_nan (cornerRadius o) = true ∨ is_nan (width o) = true ∨ is_nan (height o) = true →
     effectiveRadius o = nan ∧ controlOffset o = nan
     ∧ String.prefix "M NaN,0 " (getSvgPath indent o) = true)
  ∧ (is_nan (cornerSmoothing o) = true → controlOffset o = nan)
  ∧ (∀ w h r ro, Render.cornerSmoothing ro = None →
       controlOffset (Render.path_options w h r ro) = nan
       ∧ cornerSmoothing (EsmFixed.path_options w h r ro) = 1%float).
Proof.
split; [|split].
- intros Hn.
  assert (effectiveRadius o = nan) as Hr.
  { unfold effectiveRadius. destruct Hn as [Hn|[Hn|Hn]].
    - eapply Math_min_nan; [|exact Hn]. by left.
    - apply is_nan_eq in Hn. rewrite Hn, div_nan_l.
      eapply (Math_min_nan _ nan); [|done]. right. by left.
    - apply is_nan_eq in Hn. rewrite Hn, div_nan_l.
      eapply (Math_min_nan _ nan); [|done]. right. right. by left. }
  split; [exact Hr|]. split; [unfold controlOffset; by rewrite Hr, mul_nan_l|].
  unfold getSvgPath, outline_text, join. cbn [foldr].
  fold (effectiveRadius o). rewrite Hr.
  reflexivity.
- intros Hn%is_nan_eq. unfold controlOffset. by rewrite Hn, mul_nan_l, sub_nan_r, mul_nan_r.
- intros w h r ro Hs. split.
  + unfold controlOffset, Render.path_options. cbn [cornerSmoothing]. rewrite Hs. cbn [default].
    by rewrite mul_nan_l, sub_nan_r, mul_nan_r.
  + unfold EsmFixed.path_options. cbn [cornerSmoothing]. by rewrite Hs.
Qed.

Lemma getSvgPath_propagates_nan_witness :
  String.prefix "M NaN,0 "
    (getSvgPath indent10 {| width := 100; height := 50; cornerRadius := nan;
                            cornerSmoothing := 1; preserveSmoothing := None |}) = true.
Proof.
apply (proj1 (getSvgPath_propagates_nan indent10
                {| width := 100; height := 50; cornerRadius := nan;
                   cornerSmoothing := 1; preserveSmoothing := None |})).
left. reflexivity.
Defined.

End PathFacts.

(** ** Frames *)

Module FrameFacts.
Import JS Dom Frame.

Lemma frames_refl R e d : (∀ el, R el el) → frames R e d d.
Proof. intros HR x. destruct (elems d !! x) as [el|] eqn:E; [|done]. exists el. auto. Qed.

Lemma frames_trans R e d1 d2 d3 :
  (∀ a b c, R a b → R b c → R a c) →
  frames R e d1 d2 → frames R e d2 d3 → frames R e d1 d3.
Proof.
intros HR H12 H23 x. specialize (H12 x). specialize (H23 x).
destruct (elems d1 !! x) as [el|].
- destruct H12 as (el2 & E2 & R2 & N2). rewrite E2 in H23.
  destruct H23 as (el3 & E3 & R3 & N3). exists el3. split; [done|]. split; [eauto|].
  intros Hx. by rewrite N3, N2.
- by rewrite H12 in H23.
Qed.

Lemma frames_elems R e d d' :
  (∀ el, R el el) → elems d' = elems d → frames R e d d'.
Proof. intros HR He x. rewrite He. destruct (elems d !! x) as [el|]; [|done]. exists el. auto. Qed.

Lemma frames_update R e f d :
  (∀ el, R el el) → (∀ el, R el (f el)) → frames R e d (update_element e f d).
Proof.
intros Hrefl HR x. simpl. destruct (decide (x = e)) as [->|Hne].
- rewrite lookup_alter_eq. destruct (elems d !! e) as [el|]; [|done].
  simpl. exists (f el). by repeat split.
- rewrite lookup_alter_ne by done. destruct (elems d !! x) as [el|]; [|done].
  exists el. by repeat split.
Qed.


Lemma same_element_data_trans a b c :
  same_element_data a b → same_element_data b c → same_element_data a c.
Proof. intros (?&?&?) (?&?&?). repeat split; congruence. Qed.

Lemma untouched_refl el : untouched el el.
Proof. by repeat split. Qed.

Lemma untouched_trans a b c : untouched a b → untouched b c → untouched a c.
Proof.
intros (H1&?&?) (H2&?&?). split; [by eapply same_element_data_trans|]. split; congruence.
Qed.



(** A render of the first build changes elements by three kinds of
    update only, all on the rendered element: a class is added, the clip
    path is set, the position is set. *)
Lemma render_frames_by (R : Element → Element → Prop) b sup s e o :
  (∀ el, R el el) → (∀ x y z, R x y → R y z → R x z) →
  (∀ c el, R el (set_classList (classList_add c) el)) →
  (∀ v el, R el (set_style (with_clipPath v) el)) →
  (∀ v el, R el (set_style (with_position v) el)) →
  frames R e (Render.doc s) (Render.doc (Render.renderSquircle b sup s e o)).
Proof.
intros Hrefl Htrans Hcls Hclip Hpos.
assert (∀ d, frames R e d d) as Hid by (intros d; by apply frames_refl).
unfold Render.renderSquircle.
destruct (elems (Render.doc s) !! e) as [el|]; [|apply Hid].
destruct sup; cbn [negb]; [|by apply frames_elems].
destruct (_ || _); [apply Hid|].
destruct (Render.border_mode o); cbn [Render.doc]; [|by apply frames_update].
set (d1 := update_element e _ (Render.doc s)).
set (d2 := update_element e _ d1).
destruct (match getElementById _ d2 with Some h => _ | None => _ end) as [h d3] eqn:Hd3.
assert (elems d3 = elems d2) as He3.
{ destruct (getElementById _ d2); [by injection Hd3 as _ <-|].
  destruct (createStyle d2) as [h' d] eqn:Hc. injection Hd3 as _ <-.
  unfold createStyle in Hc. by injection Hc as _ <-. }
set (d4 := set_textContent _ _ d3).
apply (frames_trans R e _ d1); [done | by apply frames_update |].
apply (frames_trans R e _ d2); [done | by apply frames_update |].
apply (frames_trans R e _ d4); [done | by apply frames_elems |].
destruct (Render.is_static d4 e); [by apply frames_update | apply Hid].
Qed.

(** A render of the first build leaves every other element as it was, and
    of the rendered element it changes the class list, the clip path and
    the position only. *)
Lemma render_frames b sup s e o :
  frames untouched e (Render.doc s) (Render.doc (Render.renderSquircle b sup s e o)).
Proof.
apply render_frames_by; try (intros; by repeat split).
apply untouched_trans.
Qed.

End FrameFacts.

(** ** The first build: what a render does and does not do *)

Module FirstBuildFacts.
Import JS Dom Render Unchanged Frame FirstBuild FrameFacts DomFacts FloatFacts.






Lemma classList_add_subseteq c l : l ⊆ classList_add c l.
Proof.
unfold classList_add. case_bool_decide; [done|]. intros x Hx. apply elem_of_app. by left.
Qed.

(** X3: the first build only ever adds: a render removes no class from any
    element, detaches no [<style>] element, keeps the id of every [<style>]
    object and never lowers the counter. *)
Theorem first_build_never_removes (b : Build) (sup : bool) (s : State) (e : nat)
    (o : RenderOptions) :
  let s' := renderSquircle b sup s e o in
  squircleCounter s ≤ squircleCounter s'
  ∧ (∀ h, h ∈ head (doc s) → h ∈ head (doc s'))
  ∧ (∀ h st, styleObjects (doc s) !! h = Some st →
       ∃ st', styleObjects (doc s') !! h = Some st' ∧ id st' = id st)
  ∧ (∀ x el, elems (doc s) !! x = Some el →
       ∃ el', elems (doc s') !! x = Some el' ∧ classList el ⊆ classList el').
Proof.
intros s'.
assert (∀ x el, elems (doc s) !! x = Some el →
          ∃ el', elems (doc s') !! x = Some el' ∧ classList el ⊆ classList el') as Hcls.
{ intros x el Hx.
  pose proof (render_frames_by (λ a a', classList a ⊆ classList a') b sup s e o) as Hf.
  specialize (Hf ltac:(intros a y Hy; exact Hy)
                 ltac:(intros a1 a2 a3 H12 H23 y Hy; apply H23, H12, Hy)
                 ltac:(intros; apply classList_add_subseteq)
                 ltac:(intros v a y Hy; exact Hy) ltac:(intros v a y Hy; exact Hy) x).
  rewrite Hx in Hf. destruct Hf as (el' & ? & ? & _). eauto. }
split; [|split; [|split; [|exact Hcls]]]; clear Hcls; subst s'; unfold renderSquircle;
  (destruct (elems (doc s) !! e) as [el|]; [|by eauto]);
  (destruct sup; cbn [negb]; [|by eauto]);
  (destruct (_ || _); [by eauto|]);
  (destruct (border_mode o); cbn [doc squircleCounter]; [|by eauto]).
- destruct (match getElementById _ _ with Some h => _ | None => _ end). simpl. lia.
- intros h0 Hin.
  set (d2 := update_element e _ (update_element e _ (doc s))).
  assert (h0 ∈ head d2) as Hin2 by done.
  destruct (match getElementById _ d2 with Some h => _ | None => _ end) as [h d3] eqn:Hd3.
  assert (h0 ∈ head d3) as Hin3.
  { destruct (getElementById _ d2); [by injection Hd3 as _ <-|].
    destruct (createStyle d2) as [h' d] eqn:Hc. injection Hd3 as _ <-.
    unfold createStyle in Hc. injection Hc as _ <-. simpl.
    destruct (decide (h0 = h')) as [->|Hne]; apply elem_of_app.
    - right. by apply list_elem_of_singleton.
    - left. by apply list_elem_of_filter. }
  by destruct (is_static _ e).
- intros h0 st Hst.
  set (d2 := update_element e _ (update_element e _ (doc s))).
  assert (styleObjects d2 !! h0 = Some st) as Hst2 by done.
  destruct (match getElementById _ d2 with Some h => _ | None => _ end) as [h d3] eqn:Hd3.
  assert (∃ st3, styleObjects d3 !! h0 = Some st3 ∧ id st3 = id st) as (st3 & Hst3 & Hid3).
  { destruct (getElementById _ d2); [injection Hd3 as _ <-; by eauto|].
    destruct (createStyle d2) as [h' d] eqn:Hc. injection Hd3 as _ <-.
    unfold createStyle in Hc. injection Hc as <- <-. simpl.
    assert (h0 ≠ fresh (dom (styleObjects d2))) as Hne.
    { intros ->. pose proof (is_fresh (dom (styleObjects d2))) as Hf.
      apply Hf, elem_of_dom. eauto. }
    rewrite lookup_alter_ne, lookup_insert_ne by done. eauto. }
  set (css := border_css _ _ _ _ _ _ _).
  assert (∃ st4, styleObjects (set_textContent h css d3) !! h0 = Some st4 ∧ id st4 = id st)
    as (st4 & Hst4 & Hid4).
  { simpl. destruct (decide (h0 = h)) as [->|Hne].
    - rewrite lookup_alter_eq, Hst3. simpl. eauto.
    - rewrite lookup_alter_ne by done. eauto. }
  destruct (is_static _ e); simpl; eauto.
Qed.


(** X4: a render of the first build creates and removes no element, leaves
    every element but the rendered one as it was, and leaves the box, the
    computed style, the attributes, the inline background and the custom
    properties of the rendered one alone. *)
Theorem first_build_render_frame (s : State) (e : nat) (o : RenderOptions) :
  let s' := Esm.renderSquircle s e o in
  (∀ x, elems (doc s) !! x = None → elems (doc s') !! x = None)
  ∧ (∀ x el, elems (doc s) !! x = Some el →
       ∃ el', elems (doc s') !! x = Some el'
         ∧ box el' = box el ∧ computed el' = computed el ∧ attributes el' = attributes el
         ∧ background (style el') = background (style el)
         ∧ properties (style el') = properties (style el)
         ∧ (x ≠ e → el' = el))
  ∧ supports_path (doc s') = supports_path (doc s).
Proof.
intros s'. pose proof (render_frames Esm.build (supports_path (doc s)) s e o) as Hf.
split; [|split].
- intros x Hx. specialize (Hf x). by rewrite Hx in Hf.
- intros x el Hx. specialize (Hf x). rewrite Hx in Hf.
  destruct Hf as (el' & Hel' & ((?&?&?)&?&?) & Hne). exists el'. by repeat split.
- subst s'. unfold Esm.renderSquircle, renderSquircle.
  destruct (elems (doc s) !! e) as [el|]; [|done].
  destruct (supports_path (doc s)) eqn:Hsup; cbn [negb]; [|done].
  destruct (_ || _); [done|].
  destruct (border_mode o); cbn [doc]; [|done].
  set (d2 := update_element e _ (update_element e _ (doc s))).
  destruct (match getElementById _ d2 with Some h => _ | None => _ end) as [h d3] eqn:Hd3.
  assert (supports_path d3 = true) as H3.
  { destruct (getElementById _ d2); [by injection Hd3 as _ <-|].
    destruct (createStyle d2) as [h' d] eqn:Hc. injection Hd3 as _ <-.
    unfold createStyle in Hc. by injection Hc as _ <-. }
  by destruct (is_static _ e).
Qed.

(** X5: without support for clip-path paths a render does nothing but warn,
    and every call warns again: after any sequence of renders on elements
    of the page the styling and the bookkeeping are as before and the
    console holds one more warning per call. *)
Theorem unsupported_renders_only_warn :
  (∀ (s : State) (calls : list (nat * RenderOptions)),
      supports_path (doc s) = false →
      Forall (λ c, is_Some (elems (doc s) !! c.1)) calls →
      let s' := foldl (λ t c, Esm.renderSquircle t c.1 c.2) s calls in
      same_styling (doc s) (doc s')
      ∧ squircleCounter s' = squircleCounter s
      ∧ console (doc s') = console (doc s) ++ replicate (length calls) (warning Esm.build))
  ∧ (∀ (f : EsmFixed.State) (calls : list (nat * RenderOptions)),
      EsmFixed.supportsClipPathPath f = false →
      Forall (λ c, is_Some (elems (EsmFixed.doc f) !! c.1)) calls →
      let f' := foldl (λ t c, EsmFixed.renderSquircle t c.1 c.2) f calls in
      same_styling (EsmFixed.doc f) (EsmFixed.doc f')
      ∧ EsmFixed.CLASS_MAP f' = EsmFixed.CLASS_MAP f
      ∧ EsmFixed.STYLE_MAP f' = EsmFixed.STYLE_MAP f
      ∧ EsmFixed.SIZE_MAP f' = EsmFixed.SIZE_MAP f
      ∧ EsmFixed.squircleCounter f' = EsmFixed.squircleCounter f
      ∧ console (EsmFixed.doc f')
        = console (EsmFixed.doc f) ++ replicate (length calls) EsmFixed.warning).
Proof.
split.
- intros s calls. revert s. induction calls as [|[e o] calls IH]; intros s Hsup Hall s'.
  + subst s'. simpl. by rewrite app_nil_r.
  + inversion Hall as [|? ? [el Hel] Hall']; subst. simpl in Hel.
    subst s'. cbn [foldl fst snd].
    assert (Esm.renderSquircle s e o
            = {| doc := console_warn (warning Esm.build) (doc s);
                 squircleCounter := squircleCounter s |}) as ->.
    { unfold Esm.renderSquircle, renderSquircle. by rewrite Hel, Hsup. }
    set (s1 := {| doc := _; squircleCounter := _ |}).
    destruct (IH s1) as ((H1 & H2 & H3) & H4 & H5); [done..|].
    split; [by repeat split|]. split; [done|].
    rewrite H5. simpl. by rewrite <- app_assoc.
- intros f calls. revert f. induction calls as [|[e o] calls IH]; intros f Hsup Hall f'.
  + subst f'. simpl. by rewrite app_nil_r.
  + inversion Hall as [|? ? [el Hel] Hall']; subst. simpl in Hel.
    subst f'. cbn [foldl fst snd].
    assert (EsmFixed.renderSquircle f e o
            = EsmFixed.set_doc (console_warn EsmFixed.warning) f) as ->.
    { unfold EsmFixed.renderSquircle. by rewrite Hel, Hsup. }
    set (f1 := EsmFixed.set_doc _ f).
    destruct (IH f1) as ((H1 & H2 & H3) & H4 & H5 & H6 & H7 & H8); [done..|].
    split; [by repeat split|]. do 4 (split; [done|]).
    rewrite H8. simpl. by rewrite <- app_assoc.
Qed.

Lemma unsupported_renders_only_warn_witness :
  console (doc (foldl (λ t c, Esm.renderSquircle t c.1 c.2) Gallery.unsupported_page
                  [(0, Examples.bordered); (0, Examples.simple)]))
  = [warning Esm.build; warning Esm.build].
Proof.
exact (proj2 (proj2 (proj1 unsupported_renders_only_warn Gallery.unsupported_page
                       [(0, Examples.bordered); (0, Examples.simple)] eq_refl
                       ltac:(repeat constructor; by eexists)))).
Defined.

End FirstBuildFacts.

(** ** The second build: identifiers and isolation *)

Module FixedFacts.
Import JS Dom Auxiliary EsmFixed FixedModel DomFacts FloatFacts FixedSpec.

(** X7: a border-mode render of an element that already has its class name
    allocates nothing: the class name, the counter and every class list stay
    as they are, and so do the [<style>] element and the head when the
    element has its [<style>] already. *)
Theorem fixed_identifier_is_stable (s : State) (e : nat) (o : RenderOptions) (c : string) :
  reachable s → CLASS_MAP s !! e = Some c →
  (0 <? default 0%float (Render.borderWidth o))%float = true →
  let s' := renderSquircle s e o in
  CLASS_MAP s' = CLASS_MAP s
  ∧ squircleCounter s' = squircleCounter s
  ∧ (∀ x, classList <$> elems (doc s') !! x = classList <$> elems (doc s) !! x)
  ∧ (∀ h, STYLE_MAP s !! e = Some h →
       STYLE_MAP s' = STYLE_MAP s ∧ head (doc s') = head (doc s)).
Proof.
intros HI%Inv_reachable Hc Hbw s'.
pose proof (Inv_class_nonempty s e c HI Hc) as Hne.
subst s'. unfold renderSquircle.
destruct (elems (doc s) !! e) as [el|]; [|done].
destruct (supportsClipPathPath s); cbn [negb]; [|done].
destruct (_ || _); [done|]. rewrite Hbw.
cbn [CLASS_MAP set_SIZE_MAP]. rewrite Hc, bool_decide_eq_false_2 by done.
set (s0 := set_SIZE_MAP _ s).
set (s2 := set_doc _ s0).
set (s3 := if Render.is_static (doc s2) e then _ else s2).
assert (CLASS_MAP s3 = CLASS_MAP s ∧ squircleCounter s3 = squircleCounter s
        ∧ STYLE_MAP s3 = STYLE_MAP s ∧ head (doc s3) = head (doc s)
        ∧ ∀ x, classList <$> elems (doc s3) !! x = classList <$> elems (doc s) !! x)
  as (H1 & H2 & H3 & H4 & H5).
{ subst s3. destruct (Render.is_static (doc s2) e); repeat split; try done;
    intros x; cbn [doc set_doc s2]; by rewrite !classList_set_style. }
clearbody s3. unfold upsertBorderStyle.
destruct (STYLE_MAP s3 !! e) as [h|] eqn:Hs.
- by repeat split.
- repeat split; try done; rewrite H3 in Hs; congruence.
Qed.

(** X8: in every state the second build can reach, an element carries at most
    one marker class, no two elements carry the same one, and the name the
    next allocation would take is on no element. *)
Theorem fixed_markers_are_distinct (s : State) :
  reachable s →
  (∀ e el c c', elems (doc s) !! e = Some el → c ∈ classList el → c' ∈ classList el →
      is_marker c = true → is_marker c' = true → c = c')
  ∧ (∀ e e' el el' c, elems (doc s) !! e = Some el → elems (doc s) !! e' = Some el' →
      c ∈ classList el → c ∈ classList el' → is_marker c = true → e = e')
  ∧ (∀ e el, elems (doc s) !! e = Some el →
      Render.class_name (S (squircleCounter s)) ∉ classList el).
Proof.
intros HI%Inv_reachable. split; [|split].
- intros e el c c' Hel Hc Hc' Hm Hm'.
  pose proof (inv_marker s HI e el c Hel Hc Hm).
  pose proof (inv_marker s HI e el c' Hel Hc' Hm'). congruence.
- intros e e' el el' c Hel Hel' Hc Hc' Hm.
  eapply (inv_class_inj s HI); by eapply (inv_marker s HI).
- intros e el Hel Hin.
  pose proof (inv_marker s HI e el _ Hel Hin (class_name_marker _)) as Hc.
  destruct (inv_class s HI e _ Hc) as (k & Hk%class_name_inj & Hle). lia.
Qed.

Lemma fixed_markers_are_distinct_witness :
  let s := renderSquircle (Examples.second_build (Examples.sized 100 50)) 0 Examples.bordered in
  reachable s ∧ Render.class_name 2 ∉ ["card"; "squircle-1"].
Proof.
intros s.
assert (reachable s) as Hr.
{ eapply reachable_step; [|constructor].
  apply reachable_initial, initial_second_build. by repeat constructor. }
split; [exact Hr|].
set (el1 :=
  set_style (with_position "relative")
    (set_style
       (with_clipPath
          (path_value (getSvgPath (path_options 100 50 10 Examples.bordered))))
       (set_classList (classList_add "squircle-1") (Examples.sized 100 50)))).
apply (proj2 (proj2 (fixed_markers_are_distinct s Hr)) 0 el1).
vm_compute. reflexivity.
Defined.





Lemma fixed_identifier_is_stable_witness :
  let s := renderSquircle (Examples.second_build (Examples.sized 100 50)) 0 Examples.bordered in
  reachable s ∧ squircleCounter (renderSquircle s 0 Examples.bordered) = squircleCounter s.
Proof.
intros s.
assert (reachable s) as Hr.
{ eapply reachable_step; [|constructor].
  apply reachable_initial, initial_second_build. by repeat constructor. }
split; [exact Hr|].
exact (proj1 (proj2 (fixed_identifier_is_stable s 0 Examples.bordered "squircle-1" Hr
                       eq_refl eq_refl))).
Defined.

(** X10: a render of one element leaves the others alone: their state, their
    entries in the three caches, and the text and attachment of their
    [<style>] elements. *)
Theorem fixed_render_is_isolated (s : State) (e : nat) (o : RenderOptions) (x : nat) :
  reachable s → x ≠ e →
  let s' := renderSquircle s e o in
  elems (doc s') !! x = elems (doc s) !! x
  ∧ CLASS_MAP s' !! x = CLASS_MAP s !! x
  ∧ STYLE_MAP s' !! x = STYLE_MAP s !! x
  ∧ SIZE_MAP s' !! x = SIZE_MAP s !! x
  ∧ (∀ h, STYLE_MAP s !! x = Some h →
       styleObjects (doc s') !! h = styleObjects (doc s) !! h ∧ h ∈ head (doc s')).
Proof.
intros HI%Inv_reachable Hx s'.
assert (∀ h, STYLE_MAP s !! x = Some h →
          h ∈ head (doc s) ∧ is_Some (styleObjects (doc s) !! h)
          ∧ ∀ h', STYLE_MAP s !! e = Some h' → h ≠ h') as Hown.
{ intros h Hh. split; [apply (inv_head s HI); eauto|]. split.
  - destruct (inv_style s HI x h Hh) as (c & _ & Hid). unfold has_id in Hid.
    destruct (styleObjects (doc s) !! h); [eauto | done].
  - intros h' Hh' <-. apply Hx. by eapply (inv_style_inj s HI). }
subst s'. unfold renderSquircle.
destruct (elems (doc s) !! e) as [el|] eqn:Hel;
  [|split_and!; try done; intros h Hh; split; [done | by apply Hown]].
destruct (supportsClipPathPath s); cbn [negb];
  [|split_and!; try done; intros h Hh; split; [done | by apply Hown]].
destruct (_ || _);
  [split_and!; try done; intros h Hh; split; [done | by apply Hown]|].
set (s0 := set_SIZE_MAP _ s).
destruct (0 <? _)%float.
- destruct (match CLASS_MAP s0 !! e with Some c => _ | None => _ end) as [c s1] eqn:Hcs.
  assert (elems (doc s1) !! x = elems (doc s) !! x ∧ CLASS_MAP s1 !! x = CLASS_MAP s !! x
          ∧ STYLE_MAP s1 = STYLE_MAP s ∧ SIZE_MAP s1 !! x = SIZE_MAP s !! x
          ∧ styleObjects (doc s1) = styleObjects (doc s) ∧ head (doc s1) = head (doc s))
    as (E1 & C1 & S1 & Z1 & O1 & H1).
  { destruct (CLASS_MAP s0 !! e) as [c0|]; [case_bool_decide|];
      injection Hcs as <- <-; simpl;
      rewrite ?lookup_alter_ne, ?lookup_insert_ne by done; by split_and!. }
  clear Hcs. clearbody s0.
  set (s2 := set_doc _ s1).
  set (s3 := if Render.is_static (doc s2) e then _ else s2).
  assert (elems (doc s3) !! x = elems (doc s) !! x ∧ CLASS_MAP s3 !! x = CLASS_MAP s !! x
          ∧ STYLE_MAP s3 = STYLE_MAP s ∧ SIZE_MAP s3 !! x = SIZE_MAP s !! x
          ∧ styleObjects (doc s3) = styleObjects (doc s) ∧ head (doc s3) = head (doc s))
    as (E3 & C3 & S3 & Z3 & O3 & H3).
  { subst s3 s2. destruct (Render.is_static _ e); simpl;
      rewrite ?lookup_alter_ne by done; by split_and!. }
  clearbody s3. clear E1 C1 S1 Z1 O1 H1.
  unfold upsertBorderStyle.
  destruct (STYLE_MAP s3 !! e) as [h0|] eqn:Hs0.
  + simpl. rewrite S3, O3, H3. split_and!; try done.
    intros h Hh. destruct (Hown h Hh) as (Hin & _ & Hne). split; [|done].
    rewrite lookup_alter_ne; [done|]. intros ->. rewrite S3 in Hs0. by apply (Hne h).
  + unfold createStyle. simpl. rewrite S3, O3, H3.
    rewrite lookup_insert_ne by done. split_and!; try done.
    intros h Hh. destruct (Hown h Hh) as (Hin & Hsome & _).
    assert (h ≠ fresh (dom (styleObjects (doc s)))) as Hne.
    { intros ->. apply (is_fresh (dom (styleObjects (doc s)))). by apply elem_of_dom. }
    split; [by rewrite lookup_alter_ne, lookup_alter_ne, lookup_insert_ne|].
    apply elem_of_app. left. by apply list_elem_of_filter.
- destruct (CLASS_MAP s0 !! e) as [c|];
    [case_bool_decide|];
    [simpl; rewrite ?lookup_alter_ne, ?lookup_insert_ne by done;
     split_and!; try done; intros h Hh; split; [done | by apply Hown]
    | |simpl; rewrite ?lookup_alter_ne, ?lookup_insert_ne by done;
     split_and!; try done; intros h Hh; split; [done | by apply Hown]].
  cbn [STYLE_MAP set_doc s0 set_SIZE_MAP].
  destruct (STYLE_MAP s !! e) as [h0|] eqn:Hs0; simpl;
    rewrite ?lookup_alter_ne, ?lookup_insert_ne, ?lookup_delete_ne by done;
    split_and!; try done; intros h Hh; (split; [done|]);
    destruct (Hown h Hh) as (Hin & _ & Hne); [|done].
  apply list_elem_of_filter. split; [|done]. by apply Hne.
Qed.

Lemma initial_two_cards : initial Gallery.two_cards.
Proof.
repeat split. intros e el c Hel Hin. simpl in Hel.
assert (classList el = ["card"]) as Hcl.
{ apply lookup_insert_Some in Hel as [[_ <-]|[_ Hel]]; [done|].
  by apply lookup_singleton_Some in Hel as [_ <-]. }
rewrite Hcl in Hin. by apply list_elem_of_singleton in Hin as ->.
Qed.

Lemma fixed_render_is_isolated_witness :
  elems (doc (renderSquircle Gallery.two_cards 0 Examples.bordered)) !! 1
  = Some (Examples.sized 80 80).
Proof.
rewrite (proj1 (fixed_render_is_isolated Gallery.two_cards 0 Examples.bordered 1
                  (reachable_initial _ initial_two_cards) ltac:(done))).
reflexivity.
Defined.

End FixedFacts.

(** ** The initialisers: derived options, scanning and observers *)

Module SmoothingFacts.
Import JS Dom Initializer FloatOrder FloatFacts.

Lemma truthy_number x : truthy x = true → is_nan x = false ∧ is_zero x = false.
Proof. unfold truthy. intros H%negb_true_iff%orb_false_iff. exact H. Qed.

Lemma elem_of_pair {A} (x a b : A) : x ∈ [a; b] → x = a ∨ x = b.
Proof. intros [->|H]%elem_of_cons; [by left|]. apply list_elem_of_singleton in H. by right. Qed.

Lemma Math_min_pair a b :
  is_nan a = false → is_nan b = false →
  let m := Math_min [a; b] in
  (m = a ∨ m = b) ∧ is_nan m = false
  ∧ (a <? m)%float = false ∧ (b <? m)%float = false.
Proof.
intros Ha Hb m.
destruct (Math_min_spec [a; b]) as [Hin Hall]; [done|]. fold m in Hin, Hall.
apply elem_of_pair in Hin.
inversion Hall as [|? ? H1 Hall']; subst. inversion Hall' as [|? ? H2 _]; subst.
repeat split; try done. by destruct Hin as [-> | ->].
Qed.

Lemma Math_max_pair a b :
  is_nan a = false → is_nan b = false →
  let m := Math_max [a; b] in
  (m = a ∨ m = b) ∧ is_nan m = false
  ∧ (m <? a)%float = false ∧ (m <? b)%float = false.
Proof.
intros Ha Hb m.
destruct (Math_max_spec [a; b]) as [Hin Hall]; [done|]. fold m in Hin, Hall.
apply elem_of_pair in Hin.
inversion Hall as [|? ? H1 Hall']; subst. inversion Hall' as [|? ? H2 _]; subst.
repeat split; try done. by destruct Hin as [-> | ->].
Qed.

(** On numbers, [a <= b] is the negation of [b < a]. *)
Lemma leb_not_ltb a b :
  is_nan a = false → is_nan b = false → (a <=? b)%float = negb (b <? a)%float.
Proof.
intros Ha Hb.
destruct (b <? a)%float eqn:Hlt; simpl.
- apply ltb_key in Hlt as (_ & _ & Hk).
  destruct (a <=? b)%float eqn:Hle; [|done].
  apply leb_key in Hle as (_ & _ & Hle). by destruct Hle.
- apply leb_key. repeat split; try done.
  intros Hk. assert ((b <? a)%float = true); [|congruence]. by apply ltb_key.
Qed.

Lemma ltb_irrefl_key a b : (a <? b)%float = true → (b <? a)%float = false.
Proof.
intros (Ha & Hb & Hk)%ltb_key.
destruct (b <? a)%float eqn:E; [|done].
apply ltb_key in E as (_ & _ & Hk'). unfold klt in *. lia.
Qed.

Lemma ltb_trans a b c : (a <? b)%float = true → (b <? c)%float = true → (a <? c)%float = true.
Proof.
intros (Ha & Hb & Hk)%ltb_key (_ & Hc & Hk')%ltb_key.
apply ltb_key. repeat split; try done. unfold klt in *. lia.
Qed.

(** X11: the smoothing [initializeElement] derives, case by case on the
    number [v] read from the attribute: 1 when [v] is NaN or zero, [v] itself
    when [0 < v <= 1], 1 when [v > 1] and 0 when [v < 0]; in every case a
    number of the interval [0,1]. *)
Theorem deriveCornerSmoothing_cases (attr : string) :
  let v := parseFloat attr in
  let c := deriveCornerSmoothing attr in
  (truthy v = false → c = 1%float)
  ∧ ((0 <? v)%float = true → (v <=? 1)%float = true → c = v)
  ∧ ((1 <? v)%float = true → c = 1%float)
  ∧ ((v <? 0)%float = true → c = 0%float)
  ∧ is_nan c = false ∧ (0 <=? c)%float = true ∧ (c <=? 1)%float = true.
Proof.
intros v c.
assert (truthy v = false → c = 1%float) as H1.
{ intros Hv. unfold c, deriveCornerSmoothing, or_else. fold v. rewrite Hv. reflexivity. }
assert ((1 <? v)%float = true → c = 1%float) as H3.
{ intros Hv. pose proof Hv as (_ & Hn & _)%ltb_key.
  assert ((0 <? v)%float = true) as Hpos by (by apply (ltb_trans 0 1 v)).
  unfold c, deriveCornerSmoothing, or_else. fold v. rewrite (ltb_zero_truthy _ Hpos).
  destruct (Math_min_pair 1 v eq_refl Hn) as ([->| Hm] & _ & Hlt & _); [reflexivity|].
  rewrite Hm in Hlt. congruence. }
assert ((v <? 0)%float = true → c = 0%float) as H4.
{ intros Hv. pose proof Hv as (Hn & _ & Hk)%ltb_key.
  assert (truthy v = true) as Ht.
  { unfold truthy. rewrite Hn. simpl. destruct (is_zero v) eqn:Ez; [|done].
    apply is_zero_spec in Ez as [sg Hx]. unfold fkey in Hk. rewrite Hx in Hk.
    change (Prim2SF 0) with (S754_zero false) in Hk. unfold klt in Hk. simpl in Hk. lia. }
  assert ((v <? 1)%float = true) as Hv1 by (by apply (ltb_trans v 0 1)).
  unfold c, deriveCornerSmoothing, or_else. fold v. rewrite Ht.
  destruct (Math_min_pair 1 v eq_refl Hn) as ([Hm| ->] & _ & _ & Hlt).
  - rewrite Hm in Hlt. congruence.
  - destruct (Math_max_pair 0 v eq_refl Hn) as ([->| Hm] & _ & Hlt0 & _); [reflexivity|].
    rewrite Hm in Hlt0. congruence. }
assert ((0 <? v)%float = true → (v <=? 1)%float = true → c = v) as H2.
{ intros Hpos Hle. by apply InitSpec.deriveCornerSmoothing_in_range. }
split; [exact H1|]. split; [exact H2|]. split; [exact H3|]. split; [exact H4|].
set (w := or_else v 1).
assert (is_nan w = false) as Hw.
{ unfold w, or_else. destruct (truthy v) eqn:Ht; [|reflexivity]. by apply truthy_number in Ht as []. }
destruct (Math_min_pair 1 w eq_refl Hw) as (Hm & Hmn & Hm1 & Hmw).
destruct (Math_max_pair 0 (Math_min [1%float; w]) eq_refl Hmn) as (Hx & Hxn & Hx0 & Hxm).
fold w in c. change (Math_max [0%float; Math_min [1%float; w]]) with c in *.
split; [exact Hxn|]. split.
- rewrite leb_not_ltb by done. by rewrite Hx0.
- rewrite leb_not_ltb by done.
  destruct Hx as [-> | ->]; [reflexivity|]. by rewrite Hm1.
Qed.

Lemma deriveCornerSmoothing_cases_witness :
  deriveCornerSmoothing "0.6" = 0.6%float ∧ deriveCornerSmoothing "7" = 1%float
  ∧ deriveCornerSmoothing "-2" = 0%float ∧ deriveCornerSmoothing "smooth" = 1%float.
Proof.
split; [|split; [|split]].
- apply (proj1 (proj2 (deriveCornerSmoothing_cases "0.6"))); reflexivity.
- apply (proj1 (proj2 (proj2 (deriveCornerSmoothing_cases "7")))); reflexivity.
- apply (proj1 (proj2 (proj2 (proj2 (deriveCornerSmoothing_cases "-2"))))); reflexivity.
- apply (proj1 (deriveCornerSmoothing_cases "smooth")); reflexivity.
Defined.
End SmoothingFacts.

Module InitFacts.
Import JS Dom Initializer Frame Tracking FrameFacts FloatOrder FloatFacts SmoothingFacts.

Section Build.
Variable build : Render.Build.
Variable supported : Doc → bool.
Variable rgba_pattern : regex.
Variable ignoreCase : bool.

(** X12: the width [getBorderInfo] reports is a number, zero or positive, and
    positive exactly when [hasSolidBorder] holds, in which case it is the
    number read from [borderTopWidth], the style is not [none] and the colour
    is not transparent. *)
Theorem getBorderInfo_width (el : Element) :
  let info := getBorderInfo rgba_pattern ignoreCase el in
  is_nan (border_width info) = false
  ∧ hasSolidBorder info = (0 <? border_width info)%float
  ∧ (hasSolidBorder info = false → border_width info = 0%float)
  ∧ (hasSolidBorder info = true →
       border_width info = parseFloat (borderTopWidth (computed el))
       ∧ borderTopStyle (computed el) ≠ "none"
       ∧ isTransparentColor rgba_pattern ignoreCase (borderTopColor (computed el)) = false).
Proof.
intros info. subst info. unfold getBorderInfo. cbn [border_width hasSolidBorder].
set (bw := or_else (parseFloat (borderTopWidth (computed el))) 0).
destruct (0 <? bw)%float eqn:Hpos; cbn [andb].
- destruct (bool_decide (borderTopStyle (computed el) = "none")) eqn:Hst; cbn [negb andb];
    [by repeat split|].
  destruct (isTransparentColor _ _ _) eqn:Htr; cbn [negb]; [by repeat split|].
  pose proof Hpos as (_ & Hn & _)%ltb_key.
  split; [done|]. split; [by rewrite Hpos|]. split; [done|]. intros _.
  split; [|split; [by apply bool_decide_eq_false in Hst|done]].
  subst bw. unfold or_else in *. destruct (truthy _); [done|discriminate].
- by repeat split.
Qed.




(** The two steps of [initializeElement] on an element it does not skip:
    the inline background and the custom property are prepared, then
    [squircleObserver] runs with the derived options. *)
Lemma initializeElement_steps s e el attr :
  elems (doc s) !! e = Some el → elementObservers s !! e = None →
  attributes el !! "data-corner-smoothing" = Some attr → attr ≠ "" →
  let info := getBorderInfo rgba_pattern ignoreCase el in
  let bg := getBackgroundInfo rgba_pattern ignoreCase el in
  let o :=
    {| Render.cornerRadius := deriveCornerRadius (attributes el !! "data-corner-radius") el;
       Render.cornerSmoothing := Some (deriveCornerSmoothing attr);
       Render.preserveSmoothing := Some true;
       Render.borderWidth := if hasSolidBorder info then Some (border_width info) else None |} in
  let prepared :=
    if hasSolidBorder info then
      let el1 := set_style (with_background (border_color info)) el in
      if bool_decide (inner bg = "") then el1
      else set_style (with_properties <["--squircle-inner-bg" := inner bg]>) el1
    else el in
  let observer := fresh (dom (observers s)) in
  ∃ s1, elems (doc s1) = <[e := prepared]> (elems (doc s))
    ∧ observers s1 = observers s ∧ elementObservers s1 = elementObservers s
    ∧ initializeElement build supported rgba_pattern ignoreCase s e
      = set_elementObservers <[e := (observer, o)]>
          (set_observers <[observer := {| target := e; options := o; observing := true |}]>
             (renderSquircle build supported s1 e o)).
Proof.
intros Hel Htr Hattr Hne info bg o prepared observer.
unfold initializeElement. rewrite Hel, Hattr.
rewrite bool_decide_eq_false_2 by (rewrite Htr; by intros [? ?]).
rewrite bool_decide_eq_false_2 by done.
fold info bg. subst o prepared. destruct (hasSolidBorder info).
- case_bool_decide.
  + eexists. split; [|split; [|split; [|reflexivity]]]; [|done..].
    unfold doc in *. simpl. apply map_eq. intros x. destruct (decide (x = e)) as [->|Hx].
    * by rewrite lookup_alter_eq, lookup_insert_eq, Hel.
    * by rewrite lookup_alter_ne, lookup_insert_ne.
  + eexists. split; [|split; [|split; [|reflexivity]]]; [|done..].
    unfold doc in *. simpl. apply map_eq. intros x. destruct (decide (x = e)) as [->|Hx].
    * by rewrite !lookup_alter_eq, lookup_insert_eq, Hel.
    * by rewrite !lookup_alter_ne, lookup_insert_ne.
- exists s. split; [|split; [|split; [|reflexivity]]]; [|done..].
  symmetry. by apply insert_id.
Qed.






(** *** Scanning twice *)



Lemma initializeElement_settled s e :
  settled s e → initializeElement build supported rgba_pattern ignoreCase s e = s.
Proof.
intros [Ht|Ha]; [by apply InitSpec.initializeElement_tracked|].
unfold initializeElement. unfold smoothing_attribute in Ha.
destruct (elems (doc s) !! e) as [el|]; [|done]. simpl in Ha.
case_bool_decide; [done|].
destruct Ha as [-> | ->]; [done|]. by rewrite bool_decide_eq_true_2.
Qed.







(** *** Observers *)

Lemma observed_once_ext s s' :
  observers s' = observers s → elementObservers s' = elementObservers s →
  observed_once s → observed_once s'.
Proof. unfold observed_once. by intros -> ->. Qed.

Lemma observed_once_initializeElement s e :
  observed_once s →
  observed_once (initializeElement build supported rgba_pattern ignoreCase s e).
Proof.
intros [H1 H2].
destruct (elementObservers s !! e) as [data|] eqn:Ht.
{ rewrite InitSpec.initializeElement_tracked by eauto. by split. }
destruct (smoothing_attribute (doc s) e) as [attr|] eqn:Ha.
2:{ rewrite initializeElement_settled; [by split | right; by left]. }
destruct (decide (attr = "")) as [->|Hne].
{ rewrite initializeElement_settled; [by split | right; by right]. }
unfold smoothing_attribute in Ha.
destruct (elems (doc s) !! e) as [el|] eqn:Hel; [|done]. cbn [mbind option_bind] in Ha.
destruct (initializeElement_steps s e el attr Hel Ht Ha Hne) as (s1 & _ & Ho1 & Ht1 & ->).
set (o := {| Render.cornerRadius := _ |}).
set (ob := fresh (dom (observers s))).
assert (observers s !! ob = None) as Hfresh by apply not_elem_of_dom, is_fresh.
split; simpl; rewrite Ho1, Ht1.
- intros x obx ox Hx. destruct (decide (x = e)) as [->|Hxe].
  + rewrite lookup_insert_eq in Hx. injection Hx as <- <-. apply lookup_insert_eq.
  + rewrite lookup_insert_ne in Hx by done. pose proof (H1 _ _ _ Hx) as Hobx.
    rewrite lookup_insert_ne; [done|]. intros <-. congruence.
- intros obx r Hr Hlive. destruct (decide (obx = ob)) as [->|Hne'].
  + rewrite lookup_insert_eq in Hr. injection Hr as <-. apply lookup_insert_eq.
  + rewrite lookup_insert_ne in Hr by done. pose proof (H2 _ _ Hr Hlive) as Hx.
    rewrite lookup_insert_ne; [done|]. intros Heq. rewrite <- Heq in Hx. congruence.
Qed.

Lemma observed_once_scan s :
  observed_once s → observed_once (scan build supported rgba_pattern ignoreCase s).
Proof.
unfold scan. generalize (querySelectorAll (doc s)). intros l. revert s.
induction l as [|e l IH]; intros s H; [done|].
cbn [foldl]. by apply IH, observed_once_initializeElement.
Qed.

Lemma observed_once_resize_callback s ob x :
  observed_once s → observed_once (resize_callback build supported s ob x).
Proof.
intros H. unfold resize_callback.
destruct (observers s !! ob) as [r|]; [|done].
destruct (_ && _); [|done]. by eapply observed_once_ext.
Qed.

End Build.

Lemma observed_once_disconnect s e : observed_once s → observed_once (disconnect s e).
Proof.
intros [H1 H2]. unfold disconnect.
destruct (elems (doc s) !! e) as [el|]; [|by split].
destruct (elementObservers s !! e) as [[ob o]|] eqn:Ht; [|by split].
pose proof (H1 _ _ _ Ht) as Hob.
split; simpl.
- intros x obx ox Hx. destruct (decide (x = e)) as [->|Hxe].
  + by rewrite lookup_delete_eq in Hx.
  + rewrite lookup_delete_ne in Hx by done. pose proof (H1 _ _ _ Hx) as Hobx.
    rewrite lookup_alter_ne; [done|]. intros <-. congruence.
- intros obx r Hr Hlive. destruct (decide (obx = ob)) as [->|Hne'].
  + rewrite lookup_alter_eq, Hob in Hr. simpl in Hr. injection Hr as <-. done.
  + rewrite lookup_alter_ne in Hr by done. pose proof (H2 _ _ Hr Hlive) as Hx.
    rewrite lookup_delete_ne; [done|]. intros Heq. rewrite <- Heq in Hx. congruence.
Qed.

(** X15: in every state [init.iife.js] can reach, a tracked element is watched
    by exactly one live observer, which renders with the options stored for
    the element, and there is no live observer besides these. *)
Theorem tracked_elements_are_observed_once (s : State) :
  InitModel.reachable s →
  (∀ e ob o, elementObservers s !! e = Some (ob, o) →
     observers s !! ob = Some {| target := e; options := o; observing := true |}
     ∧ Init.resize_callback s ob e = Init.renderSquircle s e o)
  ∧ (∀ ob r, observers s !! ob = Some r → observing r = true →
       elementObservers s !! target r = Some (ob, options r)).
Proof.
intros Hr.
assert (observed_once s) as [H1 H2].
{ induction Hr as [s (Ho & Ht & _)|s s' _ IH Hstep].
  - split; intros *; [rewrite Ht | rewrite Ho]; by rewrite lookup_empty.
  - destruct Hstep.
    + by apply observed_once_scan.
    + by apply observed_once_initializeElement.
    + by eapply observed_once_ext.
    + by apply observed_once_resize_callback.
    + by apply observed_once_disconnect. }
split; [|exact H2].
intros e ob o Ht. pose proof (H1 _ _ _ Ht) as Hob. split; [done|].
unfold Init.resize_callback, resize_callback. rewrite Hob. cbn [observing target options andb].
by rewrite bool_decide_eq_true_2.
Qed.

Lemma reachable_framed :
  InitModel.reachable (Init.initializeElement (InitModel.loaded (InitModel.framed "0.6" "10")) 0).
Proof.
eapply InitModel.reachable_step; [|apply InitModel.step_initialize].
apply InitModel.reachable_initial. repeat split; [apply NoDup_nil_2|].
by intros h1 h2 i ?%elem_of_nil.
Qed.


Lemma tracked_elements_are_observed_once_witness :
  let s := Init.initializeElement (InitModel.loaded (InitModel.framed "0.6" "10")) 0 in
  ∃ ob o, elementObservers s !! 0 = Some (ob, o)
          ∧ Init.resize_callback s ob 0 = Init.renderSquircle s 0 o.
Proof.
intros s.
destruct (elementObservers s !! 0) as [[ob o]|] eqn:Ht; [|vm_compute in Ht; discriminate].
exists ob, o. split; [reflexivity|].
exact (proj2 (proj1 (tracked_elements_are_observed_once s reachable_framed) 0 ob o Ht)).
Defined.

End InitFacts.

(** ** [disconnect]: what is kept *)

Module DisconnectFacts.
Import JS Dom Auxiliary Initializer Tracking DomFacts DisconnectSpec.

Lemma without_markers_filter cs : ∀ l,
  without_markers cs l = filter (λ x, x ∉ markers cs) l.
Proof.
induction cs as [|c0 cs IH]; intros l.
- simpl. symmetry. induction l as [|x l IHl]; [done|].
  rewrite filter_cons_True; [by rewrite IHl|]. apply not_elem_of_nil.
- unfold without_markers in *. cbn [foldl]. rewrite IH. unfold markers.
  destruct (is_marker c0) eqn:Hm.
  + rewrite filter_cons_True by done.
    unfold classList_remove. rewrite list_filter_filter.
    apply list_filter_iff. intros x. rewrite not_elem_of_cons. tauto.
  + by rewrite filter_cons_False by congruence.
Qed.

Lemma filter_markers_out (l l0 : list string) :
  (∀ x, x ∈ l → x ∈ l0) →
  filter (λ x, x ∉ markers l0) l = filter (λ c, is_marker c = false) l.
Proof.
induction l as [|x l IH]; intros Hsub; [done|].
assert (∀ y, y ∈ l → y ∈ l0) as Hsub' by (intros y Hy; apply Hsub; by right).
destruct (is_marker x) eqn:Hm.
- rewrite filter_cons_False, filter_cons_False; [by apply IH | congruence |].
  intros H. apply H. apply list_elem_of_filter. split; [done|]. apply Hsub. by left.
- rewrite filter_cons_True, filter_cons_True; [by rewrite IH | done |].
  intros [Hx _]%list_elem_of_filter. congruence.
Qed.

Lemma without_markers_self (l : list string) :
  without_markers l l = filter (λ c, is_marker c = false) l.
Proof. rewrite without_markers_filter. by apply filter_markers_out. Qed.


Lemma set_classList_without_markers c0 cs el0 :
  set_classList (without_markers (c0 :: cs)) el0
  = set_classList (without_markers cs)
      (if is_marker c0 then set_classList (classList_remove c0) el0 else el0).
Proof. unfold set_classList, without_markers. simpl. by destruct (is_marker c0). Qed.

Lemma fold_disconnect_elems e cs : ∀ d el0,
  elems d !! e = Some el0 →
  elems (foldl (disconnect_class e) d cs)
  = <[e := set_classList (without_markers cs) el0]> (elems d).
Proof.
induction cs as [|c0 cs IH]; intros d el0 Hel.
- simpl. symmetry. apply insert_id. rewrite Hel. by destruct el0.
- cbn [foldl]. rewrite set_classList_without_markers.
  unfold disconnect_class at 2. unfold is_marker.
  destruct (startsWith c0 "squircle-") eqn:Hm; [|by apply IH].
  set (d1 := update_element e (set_classList (classList_remove c0)) d).
  set (d2 := match getElementById _ d1 with Some h => remove h d1 | None => d1 end).
  assert (elems d2 = elems d1) as He2 by (subst d2; by destruct (getElementById _ d1)).
  rewrite (IH d2 (set_classList (classList_remove c0) el0)).
  + rewrite He2. subst d1. simpl. apply map_eq. intros x.
    destruct (decide (x = e)) as [->|Hx].
    * by rewrite !lookup_insert_eq.
    * by rewrite !lookup_insert_ne, lookup_alter_ne.
  + rewrite He2. subst d1. simpl. by rewrite lookup_alter_eq, Hel.
Qed.

Lemma fold_disconnect_head e cs : ∀ d h,
  h ∈ head d →
  (∀ c, c ∈ cs → is_marker c = true → ¬ has_id d (Render.style_id c) h) →
  h ∈ head (foldl (disconnect_class e) d cs).
Proof.
induction cs as [|c0 cs IH]; intros d h Hin Hno; [done|].
cbn [foldl].
assert (h ∈ head (disconnect_class e d c0)
        ∧ styleObjects (disconnect_class e d c0) = styleObjects d) as [Hin' Ho].
{ unfold disconnect_class. destruct (startsWith c0 "squircle-") eqn:Hm; [|done].
  set (d1 := update_element e _ d).
  destruct (getElementById _ d1) as [h'|] eqn:Hf; [|done].
  split; [|done]. simpl. apply list_elem_of_filter. split; [|done].
  intros ->. apply getElementById_Some in Hf as [_ Hid].
  apply (Hno c0); [by left | done | done]. }
apply IH; [done|].
intros c Hc Hm. unfold has_id. rewrite Ho. apply Hno; [by right | done].
Qed.

(** X18: what [disconnect] leaves of a tracked element and of the page: the
    classes that are not markers, in their order; the inline background and
    position as they were (they are not restored); the other elements, their
    tracking, every [<style>] object and every attached [<style>] that is
    not named after one of the element's markers.  A second call changes
    nothing. *)
Theorem disconnect_leaves_the_rest (s : State) (e : nat) (el : Element) :
  elems (doc s) !! e = Some el → is_Some (elementObservers s !! e) →
  let s' := disconnect s e in
  (∃ el', elems (doc s') !! e = Some el'
     ∧ classList el' = filter (λ c, is_marker c = false) (classList el)
     ∧ background (style el') = background (style el)
     ∧ position (style el') = position (style el)
     ∧ properties (style el') = delete "--squircle-inner-bg" (properties (style el))
     ∧ box el' = box el ∧ computed el' = computed el ∧ attributes el' = attributes el)
  ∧ (∀ x, x ≠ e → elems (doc s') !! x = elems (doc s) !! x
                  ∧ elementObservers s' !! x = elementObservers s !! x)
  ∧ styleObjects (doc s') = styleObjects (doc s)
  ∧ (∀ h, h ∈ head (doc s) →
       (∀ c, c ∈ classList el → is_marker c = true →
          ¬ has_id (doc s) (Render.style_id c) h) →
       h ∈ head (doc s'))
  ∧ disconnect s' e = s'.
Proof.
intros Hel [[ob o] Ht] s'.
assert (disconnect s' e = s') as Hidem.
{ assert (elementObservers s' !! e = None) as Hgone.
  { subst s'. unfold disconnect. rewrite Hel, Ht. simpl. apply lookup_delete_eq. }
  unfold disconnect. destruct (elems (doc s') !! e); [|done]. by rewrite Hgone. }
split_and!; [..|exact Hidem]; clear Hidem; subst s'; unfold disconnect; rewrite Hel, Ht; cbn [fst].
all: set (d4 := update_element e (set_style (with_properties (delete "--squircle-inner-bg")))
             (update_element e (set_style (with_clipPath "")) (doc s))).
all: set (el4 := set_style (with_properties (delete "--squircle-inner-bg"))
              (set_style (with_clipPath "") el)).
all: assert (elems d4 !! e = Some el4) as Hel4
  by (subst d4; by do 2 apply IdempotenceSpec.lookup_update_element).
all: set (sf := set_doc _ _).
all: assert (doc sf = foldl (disconnect_class e) d4 (classList el)) as Hdoc by done.
all: assert (elementObservers sf = delete e (elementObservers s)) as Heo by done.
all: pose proof (fold_disconnect_elems e (classList el) d4 el4 Hel4) as Hfold.
all: rewrite <- Hdoc in Hfold.
- exists (set_classList (without_markers (classList el)) el4).
  split; [by rewrite Hfold, lookup_insert_eq|].
  split; [apply without_markers_self|]. by repeat split.
- intros x Hx. split.
  + rewrite Hfold, lookup_insert_ne by done. subst d4. simpl.
    by rewrite !lookup_alter_ne.
  + rewrite Heo. by apply lookup_delete_ne.
- rewrite Hdoc. by rewrite fold_styleObjects.
- intros h Hin Hno. rewrite Hdoc. by apply fold_disconnect_head.
Qed.

Lemma disconnect_leaves_the_rest_witness :
  let s := Init.initializeElement (InitModel.loaded (InitModel.framed "0.6" "10")) 0 in
  ∃ el', elems (doc (disconnect s 0)) !! 0 = Some el'
         ∧ classList el' = ["card"] ∧ background (style el') = "rgb(255, 0, 0)".
Proof.
intros s.
destruct (elems (doc s) !! 0) as [el|] eqn:Hel; [|vm_compute in Hel; discriminate].
assert (is_Some (elementObservers s !! 0)) as Ht by (vm_compute; eauto).
destruct (proj1 (disconnect_leaves_the_rest s 0 el Hel Ht)) as (el' & Hel' & Hcl & Hbg & _).
exists el'. split; [exact Hel'|].
assert (el = ltac:(let v := eval vm_compute in (elems (doc s) !! 0) in
                   match v with Some ?x => exact x end)) as Hval.
{ vm_compute in Hel. by injection Hel as <-. }
rewrite Hcl, Hbg, Hval. split; reflexivity.
Defined.

End DisconnectFacts.

(** ** [isTransparentColor] in the sibling build *)

Module ColorFacts.
Import JS Dom Initializer InitSpec PathSpec.

Lemma upper_close_paren x : Ascii.eqb (upper x) ")" = Ascii.eqb x ")".
Proof. destruct x as [[] [] [] [] [] [] [] []]; reflexivity. Qed.

Lemma length_append s t : String.length (s +:+ t) = String.length s + String.length t.
Proof. induction s as [|c s IH]; [done|]. rewrite append_cons. simpl. by rewrite IH. Qed.

Lemma consumed_append s t : consumed (s +:+ t) t = s.
Proof.
unfold consumed, take_string. rewrite length_append.
replace (String.length s + String.length t - String.length t) with (String.length s) by lia.
induction s as [|c s IH]; [by destruct t|].
rewrite append_cons. simpl. by rewrite IH.
Qed.

(** The quantifier of the pattern, on a stretch without a closing
    parenthesis that is followed by one, takes the whole stretch. *)
Lemma plus_takes_body ic (k : string → captures → option captures) :
  ∀ body rest caps fuel c,
    body ≠ "" → includes ")" body = false → String.length body ≤ fuel →
    k (String ")" rest) caps = Some c →
    plus_loop (rmatch ic (NoneOf [")"%char])) k fuel (body +:+ String ")" rest) caps = Some c.
Proof.
set (m := rmatch ic (NoneOf [")"%char])).
assert (∀ x s caps K, m (String x s) caps K = if char_eq ic x ")" then None else K s caps) as Hm.
{ intros x s caps K. subst m. cbn [rmatch existsb]. by rewrite orb_false_r. }
clearbody m.
induction body as [|x b IH]; intros rest caps fuel c Hne Hno Hfuel Hk; [done|].
destruct fuel as [|fuel]; [simpl in Hfuel; lia|].
simpl in Hno. apply orb_false_iff in Hno as [Hx Hno].
rewrite append_cons. cbn [plus_loop]. rewrite Hm.
assert (char_eq ic x ")" = false) as ->.
{ unfold char_eq. destruct ic; [|done].
  change (upper ")") with ")"%char. by rewrite upper_close_paren. }
assert ((String.length (b +:+ String ")" rest) <? String.length (String x (b +:+ String ")" rest)))%nat = true)
  as -> by (apply Nat.ltb_lt; simpl; lia).
destruct b as [|y b'].
- rewrite append_nil_l.
  assert (plus_loop m k fuel (String ")" rest) caps = None) as ->.
  { destruct fuel; [done|]. cbn [plus_loop]. rewrite Hm.
    assert (char_eq ic ")" ")" = true) as -> by (by destruct ic). done. }
  done.
- rewrite (IH rest caps fuel c); [done|done|done| |done]. simpl in *. lia.
Qed.


Lemma rmatch_Char ic c x s caps k :
  rmatch ic (Char c) (String x s) caps k = if char_eq ic c x then k s caps else None.
Proof. reflexivity. Qed.

Lemma rmatch_Opt ic r s caps k :
  rmatch ic (Opt r) s caps k
  = match rmatch ic r s caps k with Some c => Some c | None => k s caps end.
Proof. reflexivity. Qed.

Lemma rmatch_Group ic n r s caps k :
  rmatch ic (Group n r) s caps k
  = rmatch ic r s caps (λ s' caps', k s' (<[n := consumed s s']> caps')).
Proof. reflexivity. Qed.

Lemma rmatch_Plus ic r s caps k :
  rmatch ic (Plus r) s caps k = plus_loop (rmatch ic r) k (S (String.length s)) s caps.
Proof. reflexivity. Qed.

(** The tail of the pattern of the sibling build, from the opening
    parenthesis on, matches ["(" body ")"] and captures [body]. *)
Lemma robust_tail_matches body caps :
  body ≠ "" → includes ")" body = false →
  rmatch true
    (Cat (Char "(") (Cat (Group 1 (Plus (NoneOf [")"%char]))) (Char ")")))
    (String "(" (body +:+ ")")) caps (λ _ caps', Some caps')
  = Some (<[1 := body]> caps).
Proof.
intros Hne Hno.
rewrite rmatch_Cat, rmatch_Char. change (char_eq true "(" "(") with true. cbv beta iota.
rewrite rmatch_Cat, rmatch_Group, rmatch_Plus.
apply plus_takes_body; [done|done|rewrite length_append; lia|].
rewrite rmatch_Char. change (char_eq true ")" ")") with true. cbv beta iota.
by rewrite (consumed_append body ")").
Qed.

Ltac step_char :=
  rewrite rmatch_Cat, rmatch_Char;
  match goal with |- context [char_eq true ?a ?b] => change (char_eq true a b) with true end;
  cbv beta iota.

Lemma robust_pattern_matches (alpha : bool) body :
  body ≠ "" → includes ")" body = false →
  String_match true InitRobust.rgba_pattern
    ((if alpha then "rgba(" else "rgb(") +:+ body +:+ ")")
  = Some {[1 := body]}.
Proof.
intros Hne Hno.
assert (∀ s k, rmatch true InitRobust.rgba_pattern (String "r" (String "g" (String "b" s))) ∅ k
               = rmatch true (Cat (Opt (Char "a"))
                   (Cat (Char "(") (Cat (Group 1 (Plus (NoneOf [")"%char]))) (Char ")"))))
                   s ∅ k) as Hrgb.
{ intros s k. unfold InitRobust.rgba_pattern, cat_all. cbn [foldr]. by do 3 step_char. }
destruct alpha.
- change ("rgba(" +:+ body +:+ ")")
    with (String "r" (String "g" (String "b" (String "a" (String "(" (body +:+ ")")))))).
  cbn [String_match]. rewrite Hrgb, rmatch_Cat, rmatch_Opt, rmatch_Char.
  change (char_eq true "a" "a") with true. cbv beta iota.
  by rewrite robust_tail_matches.
- change ("rgb(" +:+ body +:+ ")")
    with (String "r" (String "g" (String "b" (String "(" (body +:+ ")"))))).
  cbn [String_match]. rewrite Hrgb, rmatch_Cat, rmatch_Opt, rmatch_Char.
  change (char_eq true "a" "(") with false. cbv beta iota.
  by rewrite robust_tail_matches.
Qed.


(** X17: on a functional colour notation, [rgb(...)] or [rgba(...)] with a
    body that has no closing parenthesis, the sibling build answers [true]
    exactly when the body has four comma-separated components and the
    fourth reads as zero (or the string is the literal the function names). *)
Theorem robust_isTransparentColor_functional (alpha : bool) (body : string) :
  body ≠ "" → includes ")" body = false →
  let color := (if alpha then "rgba(" else "rgb(") +:+ body +:+ ")" in
  InitRobust.isTransparentColor color = true
  ↔ color = "rgba(0, 0, 0, 0)"
    ∨ ∃ r g b a, map trim (split "," body) = [r; g; b; a]
                 ∧ (parseFloat a =? 0)%float = true.
Proof.
intros Hne Hno color.
pose proof (robust_pattern_matches alpha body Hne Hno) as Hmatch. fold color in Hmatch.
unfold InitRobust.isTransparentColor, isTransparentColor. rewrite Hmatch.
assert (({[1 := body]} : captures) !! 1 = Some body) as -> by apply lookup_singleton_eq.
change (default "" (Some body)) with body.
assert (bool_decide (color = "") = false) as ->.
{ apply bool_decide_eq_false. subst color. destruct alpha; discriminate. }
assert (bool_decide (color = "transparent") = false) as ->.
{ apply bool_decide_eq_false. subst color. destruct alpha; discriminate. }
cbn [orb].
case_bool_decide as Hlit; [split; [by left | done]|].
set (values := map trim (split "," body)).
split.
- destruct (bool_decide (length values = 4)) eqn:Hlen; cbn [andb]; [|intros Hf; discriminate Hf].
  apply bool_decide_eq_true in Hlen.
  destruct values as [|r [|g [|b [|a [|? ?]]]]]; try done.
  change (default "" ([r; g; b; a] !! 3%nat)) with a. intros Hz.
  destruct (parseFloat a =? 0)%float eqn:E; [|done].
  right. by exists r, g, b, a.
- intros [Hc|(r & g & b & a & Hv & Hz)]; [done|]. subst values. rewrite Hv.
  change (default "" ([r; g; b; a] !! 3%nat)) with a. by rewrite Hz.
Qed.

Lemma robust_isTransparentColor_functional_witness :
  InitRobust.isTransparentColor "rgba(255, 0, 0, 0)" = true.
Proof.
apply (robust_isTransparentColor_functional true "255, 0, 0, 0"); [done|reflexivity|].
right. exists "255", "0", "0", "0". split; reflexivity.
Defined.

End ColorFacts.
